(** * Tic-Tac-Toe page script ([main.js]): model and verified properties

    The script keeps three module-level variables ([boardState],
    [currentPlayer], [isGameActive]) and drives a small part of the page
    (the nine cell elements, the status line, two sound effects).  The
    functions below follow [main.js] one for one, written in a state monad
    with one exceptional outcome (an uncaught [TypeError] ends a handler and
    leaves the state as it was at that point). *)

From stdpp Require Import gmap strings list.
From Stdlib Require Import ZArith Lia.

Local Open Scope string_scope.
Local Open Scope Z_scope.

(** ** Values *)

(** The two marks, the strings ['X'] and ['O']. *)
Inductive player := X | O.

#[global] Instance player_eq_dec : EqDecision player.
Proof. solve_decision. Defined.

(** What [boardState[i]] can evaluate to: [null], [undefined] (a hole or a
    key that is absent) or one of the two mark strings. *)
Inductive jsval := null | undefined | str (p : player).

#[global] Instance jsval_eq_dec : EqDecision jsval.
Proof. solve_decision. Defined.

(** JavaScript truthiness: [null] and [undefined] are falsy, a non-empty
    string is truthy. *)
Definition truthy (v : jsval) : bool :=
  match v with
  | str _ => true
  | _ => false
  end.

(** [v === w] on these values. *)
Definition strict_eq (v w : jsval) : bool := bool_decide (v = w).

(** String conversion, as done by a template literal. *)
Definition player_text (p : player) : string :=
  match p with X => "X" | O => "O" end.

Definition to_string (v : jsval) : string :=
  match v with
  | null => "null"
  | undefined => "undefined"
  | str p => player_text p
  end.

(** [currentPlayer.toLowerCase()] *)
Definition toLowerCase (p : player) : string :=
  match p with X => "x" | O => "o" end.

(** [currentPlayer === 'X' ? 'O' : 'X'] *)
Definition other (p : player) : player :=
  match p with X => O | O => X end.

(** ** JavaScript arrays

    Keys are integers, as the indices that [renderBoard] hands out are.
    An array is its indexed elements (holes read as [undefined]) together
    with the properties stored under integer keys that are not array
    indices: a write at a negative key, or at a key of [2^32 - 1] or more,
    creates an ordinary property and leaves [length] alone. *)
Record array := Array {
  items : list jsval;
  props : gmap Z jsval
}.

Definition is_array_index (i : Z) : bool :=
  (0 <=? i) && (i <? 2 ^ 32 - 1).

(** [a[i]] *)
Definition get (a : array) (i : Z) : jsval :=
  if is_array_index i
  then default undefined (items a !! Z.to_nat i)
  else default undefined (props a !! i).

(** [a[i] = v]: in range the element is replaced; past the end the array
    grows to length [i + 1], the new positions before [i] being holes. *)
Definition set (a : array) (i : Z) (v : jsval) : array :=
  if is_array_index i then
    let n := Z.to_nat i in
    if (n <? length (items a))%nat
    then Array (<[n := v]> (items a)) (props a)
    else Array (items a ++ replicate (n - length (items a)) undefined ++ [v])
               (props a)
  else Array (items a) (<[i := v]> (props a)).

(** [a.fill(null)]: every index below [length] is overwritten. *)
Definition fill_null (a : array) : array :=
  Array (replicate (length (items a)) null) (props a).

(** [a.every(cell => cell !== null)] *)
Definition every_not_null (a : array) : bool :=
  forallb (fun cell => negb (strict_eq cell null)) (items a).

(** [Array(9).fill(null)] *)
Definition empty_board : array := Array (replicate 9%nat null) ∅.

(** ** Page elements and sound *)

(** A cell [div]: its text, its class list, [dataset.index], and the index
    captured by its click listener [() => handleCellClick(i, cell)]. *)
Record element := Element {
  textContent : string;
  classList : list string;
  dataset_index : nat;
  listener : nat
}.

(** [classList.add(c)]: a class list holds each token once. *)
Definition classList_add (c : string) (e : element) : element :=
  if bool_decide (c ∈ classList e) then e
  else Element (textContent e) (classList e ++ [c]) (dataset_index e) (listener e).

Definition set_textContent (t : string) (e : element) : element :=
  Element t (classList e) (dataset_index e) (listener e).

Inductive soundKey := place | win.

#[global] Instance soundKey_eq_dec : EqDecision soundKey.
Proof. solve_decision. Defined.

(** State of the audio context, when one was created. *)
Inductive contextState := suspended | running.

(** Calls made on the audio context. *)
Inductive audioCall := Resume | Start (key : soundKey).

(** ** Program state *)

Record state := State {
  boardState : array;
  currentPlayer : player;
  isGameActive : bool;
  gameBoard : list element;          (* children of #gameBoard *)
  gameStatus : string;               (* text of #gameStatus *)
  audioContext : option contextState;
  audioBuffers : list soundKey;      (* keys whose buffer is decoded *)
  audioLog : list audioCall          (* calls made so far, oldest first *)
}.

Definition with_boardState (b : array) (s : state) : state :=
  State b (currentPlayer s) (isGameActive s) (gameBoard s) (gameStatus s)
        (audioContext s) (audioBuffers s) (audioLog s).
Definition with_currentPlayer (p : player) (s : state) : state :=
  State (boardState s) p (isGameActive s) (gameBoard s) (gameStatus s)
        (audioContext s) (audioBuffers s) (audioLog s).
Definition with_isGameActive (a : bool) (s : state) : state :=
  State (boardState s) (currentPlayer s) a (gameBoard s) (gameStatus s)
        (audioContext s) (audioBuffers s) (audioLog s).
Definition with_gameBoard (g : list element) (s : state) : state :=
  State (boardState s) (currentPlayer s) (isGameActive s) g (gameStatus s)
        (audioContext s) (audioBuffers s) (audioLog s).
Definition with_gameStatus (t : string) (s : state) : state :=
  State (boardState s) (currentPlayer s) (isGameActive s) (gameBoard s) t
        (audioContext s) (audioBuffers s) (audioLog s).
Definition with_audioContext (c : option contextState) (s : state) : state :=
  State (boardState s) (currentPlayer s) (isGameActive s) (gameBoard s)
        (gameStatus s) c (audioBuffers s) (audioLog s).
Definition with_audioBuffers (l : list soundKey) (s : state) : state :=
  State (boardState s) (currentPlayer s) (isGameActive s) (gameBoard s)
        (gameStatus s) (audioContext s) l (audioLog s).
Definition with_audioLog (l : list audioCall) (s : state) : state :=
  State (boardState s) (currentPlayer s) (isGameActive s) (gameBoard s)
        (gameStatus s) (audioContext s) (audioBuffers s) l.

(** ** The monad of handlers

    A computation returns normally with a value, or throws; either way it
    leaves a state behind. *)
Inductive outcome (A : Type) := Return (a : A) | Throw.
Arguments Return {A} a.
Arguments Throw {A}.

Definition M (A : Type) : Type := state → outcome A * state.

#[global] Instance M_ret : MRet M := λ A a s, (Return a, s).
#[global] Instance M_bind : MBind M := λ A B f m s,
  match m s with
  | (Return a, s') => f a s'
  | (Throw, s') => (Throw, s')
  end.

Definition gets {A} (f : state → A) : M A := λ s, (Return (f s), s).
Definition modify (f : state → state) : M unit := λ s, (Return tt, f s).
Definition throw {A} : M A := λ s, (Throw, s).

(** [l.forEach(f)] *)
Fixpoint forEach {A} (l : list A) (f : A → M unit) : M unit :=
  match l with
  | [] => mret tt
  | x :: l' => f x ;; forEach l' f
  end.

(** The state a computation leaves behind. *)
Definition exec {A} (m : M A) (s : state) : state := snd (m s).

(** ** The script *)

(** A winning combination [[a, b, c]]. *)
Definition combination : Type := nat * nat * nat.

Definition indices (w : combination) : list nat :=
  let '(a, b, c) := w in [a; b; c].

Definition WINNING_COMBINATIONS : list combination :=
  [ (0, 1, 2); (3, 4, 5); (6, 7, 8) ]%nat.   (* Rows *)

(** The value of [boardState] when the script is loaded, and of the other
    globals; [audioContext] is still unset. *)
Definition globals : state :=
  State empty_board X true [] "" None [] [].

Definition log (c : audioCall) : M unit :=
  modify (λ s, with_audioLog (audioLog s ++ [c]) s).

(** [playSound(key)] *)
Definition playSound (key : soundKey) : M unit :=
  ctx ← gets audioContext;
  buffers ← gets audioBuffers;
  match ctx with
  | None => mret tt
  | Some st =>
      if bool_decide (key ∈ buffers) then
        (match st with suspended => log Resume | running => mret tt end) ;;
        log (Start key)
      else mret tt
  end.

(** [updateStatus(message)] *)
Definition updateStatus (message : string) : M unit :=
  modify (with_gameStatus message).

(** The [div] that [renderBoard] creates for index [i]. *)
Definition new_cell (i : nat) : element := Element "" ["cell"] i i.

(** [renderBoard()] *)
Definition renderBoard : M unit :=
  modify (with_gameBoard []) ;;
  forEach (seq 0 9) (λ i,
    modify (λ s, with_gameBoard (gameBoard s ++ [new_cell i]) s)) ;;
  p ← gets currentPlayer;
  updateStatus ("Player " +:+ player_text p +:+ "'s Turn").

(** The loop of [checkWinner] over the combinations still to visit. *)
Fixpoint checkWinner_from (board : array) (l : list combination)
  : option (jsval * combination) :=
  match l with
  | [] => None
  | (a, b, c) :: rest =>
      if truthy (get board (Z.of_nat a))
         && strict_eq (get board (Z.of_nat a)) (get board (Z.of_nat b))
         && strict_eq (get board (Z.of_nat a)) (get board (Z.of_nat c))
      then Some (get board (Z.of_nat a), (a, b, c))
      else checkWinner_from board rest
  end.

(** [checkWinner()]: [Some (winner, combination)] or [None] for [null]. *)
Definition checkWinner : M (option (jsval * combination)) :=
  board ← gets boardState;
  mret (checkWinner_from board WINNING_COMBINATIONS).

(** A cell element is referred to by its position among the children of
    [#gameBoard].  Writing a property through a reference that designates
    no element (the argument was left out) throws. *)
Definition update_element (k : nat) (f : element → element) : M unit :=
  g ← gets gameBoard;
  match g !! k with
  | Some e => modify (with_gameBoard (<[k := f e]> g))
  | None => throw
  end.

(** [gameBoard.querySelectorAll('.' + c)]: the children carrying class [c],
    in document order, as positions counted from [k]. *)
Fixpoint querySelectorAll_from (k : nat) (c : string) (g : list element)
  : list nat :=
  match g with
  | [] => []
  | e :: g' =>
      if bool_decide (c ∈ classList e)
      then k :: querySelectorAll_from (S k) c g'
      else querySelectorAll_from (S k) c g'
  end.

Definition querySelectorAll (c : string) : M (list nat) :=
  g ← gets gameBoard;
  mret (querySelectorAll_from 0 c g).

(** [highlightWinningCells(combination)] *)
Definition highlightWinningCells (w : combination) : M unit :=
  cells ← querySelectorAll "cell";
  forEach (indices w) (λ index,
    match cells !! index with
    | Some k => update_element k (classList_add "winning")
    | None => throw
    end).

(** [handleCellClick(index, cellElement)] *)
Definition handleCellClick (index : Z) (cellElement : nat) : M unit :=
  active ← gets isGameActive;
  board ← gets boardState;
  if negb active || truthy (get board index) then
    mret tt   (* Ignore if game is inactive or cell is already taken *)
  else
    (* 1. Update state and UI *)
    player ← gets currentPlayer;
    modify (with_boardState (set board index (str player))) ;;
    update_element cellElement (set_textContent (player_text player)) ;;
    update_element cellElement (classList_add (toLowerCase player)) ;;
    playSound place ;;
    (* 2. Check game end conditions *)
    winnerResult ← checkWinner;
    match winnerResult with
    | Some (winner, w) =>
        modify (with_isGameActive false) ;;
        updateStatus ("Player " +:+ to_string winner +:+ " Wins!") ;;
        highlightWinningCells w ;;
        playSound win
    | None =>
        board' ← gets boardState;
        if every_not_null board' then
          modify (with_isGameActive false) ;;
          updateStatus "It's a Draw!"
        else
          (* 3. Switch player *)
          modify (with_currentPlayer (other player)) ;;
          player' ← gets currentPlayer;
          updateStatus ("Player " +:+ player_text player' +:+ "'s Turn")
    end.

(** The guard of [handleCellClick]:
    [!isGameActive || boardState[index]]. *)
Definition ignored (index : Z) (s : state) : bool :=
  negb (isGameActive s) || truthy (get (boardState s) index).

(** [resetGame()] *)
Definition resetGame : M unit :=
  modify (λ s, with_boardState (fill_null (boardState s)) s) ;;
  modify (with_currentPlayer X) ;;
  modify (with_isGameActive true) ;;
  renderBoard.

(** [initializeAudio()], up to the point where the loads are started:
    [ctx] is [None] when the browser has no [AudioContext], and the state
    of the fresh context otherwise. *)
Definition initializeAudio (ctx : option contextState) : M unit :=
  match ctx with
  | None => mret tt
  | Some st => modify (with_audioContext (Some st))
  end.

(** [initialize()] *)
Definition initialize (ctx : option contextState) : M unit :=
  initializeAudio ctx ;;
  renderBoard.

(** ** The page

    What can happen once the page is loaded: a click on the [k]-th cell
    (which runs the listener that [renderBoard] attached to it), a click on
    the reset button, the end of a sound load, and a change of state of the
    audio context. *)
Inductive event :=
  | CellClick (k : nat)
  | ResetClick
  | SoundDecoded (key : soundKey)
  | ContextState (st : contextState).

Definition dispatch (e : event) : M unit :=
  match e with
  | CellClick k =>
      g ← gets gameBoard;
      match g !! k with
      | Some cell => handleCellClick (Z.of_nat (listener cell)) k
      | None => mret tt
      end
  | ResetClick => resetGame
  | SoundDecoded key =>
      ctx ← gets audioContext;
      match ctx with
      | Some _ => modify (λ s, with_audioBuffers (key :: audioBuffers s) s)
      | None => mret tt
      end
  | ContextState st =>
      ctx ← gets audioContext;
      match ctx with
      | Some _ => modify (with_audioContext (Some st))
      | None => mret tt
      end
  end.

(** The state of the page after [DOMContentLoaded]. *)
Definition loaded (ctx : option contextState) : state :=
  exec (initialize ctx) globals.

(** The state after a sequence of events, oldest first. *)
Definition run (es : list event) (s : state) : state :=
  foldl (λ s e, exec (dispatch e) s) s es.

(** The marks on the board, indexed elements and stray properties alike. *)
Definition count_marks (p : player) (a : array) : nat :=
  length (filter (λ v, v = str p) (items a))
  + length (filter (λ kv, kv.2 = str p) (map_to_list (props a))).

(** ** Vocabulary of the properties *)

(** A combination is won by [p] on a board when its three cells all hold
    the mark of [p]: they are non-empty and equal. *)
Definition won_by (board : array) (p : player) (w : combination) : Prop :=
  let '(a, b, c) := w in
  get board (Z.of_nat a) = str p
  ∧ get board (Z.of_nat b) = str p
  ∧ get board (Z.of_nat c) = str p.

Definition won (board : array) (w : combination) : Prop :=
  ∃ p, won_by board p w.

(** [w] is the first combination of the list [l] that is won, and it is
    won by [p]. *)
Definition first_won (l : list combination) (board : array)
    (p : player) (w : combination) : Prop :=
  ∃ n : nat, l !! n = Some w ∧ won_by board p w
    ∧ ∀ (m : nat) w', (m < n)%nat → l !! m = Some w' → ¬ won board w'.

(** All nine cells of the grid hold a mark. *)
Definition full (board : array) : Prop :=
  ∀ i, 0 ≤ i < 9 → truthy (get board i) = true.

(** The eight lines of the 3x3 grid that the rules of the game count as a
    win: three rows, three columns, two diagonals. *)
Definition LINES : list combination :=
  [ (0, 1, 2); (3, 4, 5); (6, 7, 8);
    (0, 3, 6); (1, 4, 7); (2, 5, 8);
    (0, 4, 8); (2, 4, 6) ]%nat.

(** The cells of [w] carry the highlight class. *)
Definition highlighted (g : list element) (w : combination) : Prop :=
  ∀ i, i ∈ indices w → ∃ e, g !! i = Some e ∧ "winning" ∈ classList e.

(** The cell elements as [renderBoard] leaves them, whatever was written
    on them since: nine [div]s of class [cell], the [k]-th one listening
    with index [k]. *)
Definition rendered (g : list element) : Prop :=
  length g = 9%nat
  ∧ ∀ (k : nat) e, g !! k = Some e → listener e = k ∧ "cell" ∈ classList e.

(** The board as [Array(9).fill(null)] shapes it and moves on the grid keep
    it: nine indexed elements, each [null] or a mark, and no stray
    property. *)
Definition nine_cells (board : array) : Prop :=
  length (items board) = 9%nat
  ∧ (undefined ∉ items board)
  ∧ props board = ∅.

(** What holds of every state the page can be in (see [run_invariant]):
    the shape of the board and of the cells, the balance of the marks, and
    the agreement of [isGameActive] and of the status line with the
    board. *)
Definition invariant (s : state) : Prop :=
  let board := boardState s in
  nine_cells board
  ∧ rendered (gameBoard s)
  ∧ if isGameActive s then
      checkWinner_from board WINNING_COMBINATIONS = None
      ∧ ¬ full board
      ∧ count_marks X board
        = match currentPlayer s with
          | X => count_marks O board
          | O => S (count_marks O board)
          end
    else
      (count_marks X board = count_marks O board
       ∨ count_marks X board = S (count_marks O board))
      ∧ ((checkWinner_from board WINNING_COMBINATIONS = None
          ∧ full board ∧ gameStatus s = "It's a Draw!")
         ∨ ∃ p w, first_won WINNING_COMBINATIONS board p w
             ∧ gameStatus s = "Player " +:+ player_text p +:+ " Wins!"
             ∧ highlighted (gameBoard s) w).

(** [m] moves every state to one related to it by [R], whether it returns
    or throws. *)
Definition steps {A} (R : relation state) (m : M A) : Prop :=
  ∀ s, R s (exec m s).

(** Two states agree on what [f] reads. *)
Definition same {B} (f : state → B) : relation state :=
  λ s s', f s' = f s.

(** ** Vocabulary of the further properties *)

(** The game and its display: every variable and page element except the
    sound fields. *)
Definition game (s : state)
  : array * player * bool * list element * string :=
  (boardState s, currentPlayer s, isGameActive s, gameBoard s, gameStatus s).

(** The text a cell shows for the value the board holds there: the mark,
    or nothing. *)
Definition cell_text (v : jsval) : string :=
  match v with
  | str p => player_text p
  | _ => ""
  end.

(** The status line that goes with the variables of the game. *)
Definition status_text (s : state) : string :=
  if isGameActive s then
    "Player " +:+ player_text (currentPlayer s) +:+ "'s Turn"
  else
    match checkWinner_from (boardState s) WINNING_COMBINATIONS with
    | Some _ => "Player " +:+ player_text (currentPlayer s) +:+ " Wins!"
    | None => "It's a Draw!"
    end.

(** The clicks among a sequence of events, the sound events dropped. *)
Fixpoint clicks_of (es : list event) : list event :=
  match es with
  | [] => []
  | SoundDecoded _ :: es' | ContextState _ :: es' => clicks_of es'
  | e :: es' => e :: clicks_of es'
  end.

(** [m] cannot tell apart two states with the same game: it ends the same
    way in both, with the same value and the same game. *)
Definition blind_to_sound {A} (m : M A) : Prop :=
  ∀ s1 s2, game s1 = game s2 →
    (m s1).1 = (m s2).1 ∧ game (m s1).2 = game (m s2).2.

(** The cells after [highlightWinningCells w] has visited them all. *)
Definition highlight (w : combination) (g : list element) : list element :=
  foldl (λ g i, alter (classList_add "winning") i g) g (indices w).

(** The cells that the state of the game wants highlighted: those of the
    combination [checkWinner] reports once the game has ended, none while
    it is active or when it is drawn. *)
Definition highlighted_cells (s : state) : list nat :=
  if isGameActive s then []
  else match checkWinner_from (boardState s) WINNING_COMBINATIONS with
       | Some (_, w) => indices w
       | None => []
       end.

(** The page shows the game: each cell shows the mark of its board entry
    and carries the class of that mark, the highlight is on the cells of
    the winning combination and nowhere else, the status line is the one
    that goes with the variables, and a game that has ended as won was won
    by the player who is still current. *)
Definition display (s : state) : Prop :=
  (∀ (k : nat) e, gameBoard s !! k = Some e →
     textContent e = cell_text (get (boardState s) (Z.of_nat k))
     ∧ (∀ p, toLowerCase p ∈ classList e
             ↔ get (boardState s) (Z.of_nat k) = str p)
     ∧ ("winning" ∈ classList e ↔ k ∈ highlighted_cells s))
  ∧ gameStatus s = status_text s
  ∧ (isGameActive s = false → ∀ winner w,
       checkWinner_from (boardState s) WINNING_COMBINATIONS = Some (winner, w) →
       winner = str (currentPlayer s)).

(** A state related to one where [P] holds satisfies [P] too. *)
Definition keeps (P : state → Prop) : relation state :=
  λ s s', P s → P s'.

(** Every sound that was started had its buffer decoded. *)
Definition started_sounds_decoded (s : state) : Prop :=
  ∀ key, Start key ∈ audioLog s → key ∈ audioBuffers s.

(** There is no audio context and the calls made so far are [l]. *)
Definition without_context (l : list audioCall) (s : state) : Prop :=
  audioContext s = None ∧ audioLog s = l.

(** * Properties *)

(** ** Arrays *)

Section array_facts.
Implicit Types (a : array) (i j : Z) (v : jsval).

Lemma is_array_index_spec i :
  is_array_index i = true ↔ 0 ≤ i < 2 ^ 32 - 1.
Proof. unfold is_array_index. rewrite andb_true_iff. lia. Qed.

Lemma get_set_eq a i v : get (set a i v) i = v.
Proof.
  unfold get, set. destruct (is_array_index i) eqn:Hi.
  - destruct (Z.to_nat i <? length (items a))%nat eqn:Hlt; simpl.
    + apply Nat.ltb_lt in Hlt. by rewrite list_lookup_insert_eq.
    + apply Nat.ltb_ge in Hlt.
      rewrite lookup_app_r by lia.
      rewrite lookup_app_r by (rewrite length_replicate; lia).
      rewrite length_replicate.
      by replace (Z.to_nat i - length (items a) - (Z.to_nat i - length (items a)))%nat
        with 0%nat by lia.
  - simpl. by rewrite lookup_insert_eq.
Qed.

Lemma get_set_ne a i j v : i ≠ j → get (set a i v) j = get a j.
Proof.
  intros Hne. unfold get, set.
  destruct (is_array_index i) eqn:Hi, (is_array_index j) eqn:Hj;
    try reflexivity.
  - apply is_array_index_spec in Hi, Hj.
    assert (Z.to_nat i ≠ Z.to_nat j) as Hn by lia.
    destruct (Z.to_nat i <? length (items a))%nat eqn:Hlt; simpl.
    + by rewrite list_lookup_insert_ne.
    + apply Nat.ltb_ge in Hlt.
      destruct (decide (Z.to_nat j < length (items a))%nat) as [Hj'|Hj'].
      * by rewrite lookup_app_l.
      * rewrite (lookup_ge_None_2 (items a)) by lia.
        rewrite lookup_app_r by lia.
        destruct (decide (Z.to_nat j < Z.to_nat i)%nat).
        -- rewrite lookup_app_l by (rewrite length_replicate; lia).
           by rewrite lookup_replicate_2 by lia.
        -- rewrite lookup_ge_None_2; [done|].
           rewrite length_app, length_replicate. simpl. lia.
  - destruct (Z.to_nat i <? length (items a))%nat; reflexivity.
  - simpl. by rewrite lookup_insert_ne.
Qed.

Lemma length_set_index a i v :
  is_array_index i = true →
  length (items (set a i v)) = (length (items a) `max` S (Z.to_nat i))%nat.
Proof.
  intros Hi. unfold set. rewrite Hi.
  destruct (Z.to_nat i <? length (items a))%nat eqn:Hlt; simpl.
  - apply Nat.ltb_lt in Hlt. rewrite length_insert. lia.
  - apply Nat.ltb_ge in Hlt.
    rewrite !length_app, length_replicate. simpl. lia.
Qed.

Lemma set_not_index a i v :
  is_array_index i = false →
  set a i v = Array (items a) (<[i := v]> (props a)).
Proof. intros Hi. unfold set. by rewrite Hi. Qed.

(** Below [length] a write is a plain replacement. *)
Lemma set_in_range a i v :
  0 ≤ i < Z.of_nat (length (items a)) → is_array_index i = true →
  set a i v = Array (<[Z.to_nat i := v]> (items a)) (props a).
Proof.
  intros Hr Hi. unfold set. rewrite Hi.
  destruct (Z.to_nat i <? length (items a))%nat eqn:Hlt; [done|].
  apply Nat.ltb_ge in Hlt. lia.
Qed.

Lemma truthy_str v : truthy v = true ↔ ∃ p, v = str p.
Proof.
  destruct v; simpl; split; try done; try (intros [? ?]; done). eauto.
Qed.

Lemma strict_eq_true v w : strict_eq v w = true ↔ v = w.
Proof. unfold strict_eq. by rewrite bool_decide_eq_true. Qed.
End array_facts.

(** ** The monad *)

Section monad_facts.
Context {A B : Type}.

Lemma bind_ret (a : A) (g : A → M B) s : (mret a ≫= g) s = g a s.
Proof. reflexivity. Qed.

Lemma bind_gets (f : state → A) (g : A → M B) s :
  (gets f ≫= g) s = g (f s) s.
Proof. reflexivity. Qed.

Lemma bind_modify (h : state → state) (g : unit → M B) s :
  (modify h ≫= g) s = g tt (h s).
Proof. reflexivity. Qed.

Lemma bind_return (m : M A) (g : A → M B) s a s' :
  m s = (Return a, s') → (m ≫= g) s = g a s'.
Proof. intros H. unfold mbind, M_bind. by rewrite H. Qed.

Lemma bind_throw (m : M A) (g : A → M B) s s' :
  m s = (Throw, s') → (m ≫= g) s = (Throw, s').
Proof. intros H. unfold mbind, M_bind. by rewrite H. Qed.

Lemma steps_ret R `{!Reflexive R} (a : A) : steps R (mret a : M A).
Proof. intros s. apply reflexivity. Qed.

Lemma steps_throw R `{!Reflexive R} : steps R (throw : M A).
Proof. intros s. apply reflexivity. Qed.

Lemma steps_gets R `{!Reflexive R} (f : state → A) : steps R (gets f).
Proof. intros s. apply reflexivity. Qed.

Lemma steps_bind R `{!Transitive R} (m : M A) (g : A → M B) :
  steps R m → (∀ a, steps R (g a)) → steps R (m ≫= g).
Proof.
  intros Hm Hg s. specialize (Hm s). unfold exec, mbind, M_bind in *.
  destruct (m s) as [[a|] s1]; simpl in *; [|done].
  etrans; [exact Hm|]. apply Hg.
Qed.
End monad_facts.

Lemma steps_modify R (h : state → state) :
  (∀ s, R s (h s)) → steps R (modify h).
Proof. intros H s. apply H. Qed.

Lemma steps_forEach {A} R `{!PreOrder R} (l : list A) (f : A → M unit) :
  (∀ x, steps R (f x)) → steps R (forEach l f).
Proof.
  intros Hf. induction l as [|x l IH]; simpl.
  - by apply steps_ret; apply _.
  - apply steps_bind; [apply _ | apply Hf | intros _; apply IH].
Qed.

#[global] Instance same_preorder {B} (f : state → B) : PreOrder (same f).
Proof.
  split.
  - intros s. reflexivity.
  - intros s1 s2 s3 H12 H23. unfold same in *. congruence.
Qed.

(** Walks through a handler built from the monad's operations, leaving the
    side conditions on the [modify] steps. *)
Ltac frame :=
  repeat match goal with
    | |- steps _ (mret _) => apply steps_ret; apply _
    | |- steps _ throw => apply steps_throw; apply _
    | |- steps _ (gets _) => apply steps_gets; apply _
    | |- steps _ (modify _) => apply steps_modify; intros ?
    | |- steps _ (_ ≫= _) => apply steps_bind; [apply _ | | intros ?]
    | |- steps _ (forEach _ _) => apply steps_forEach; [apply _ | intros ?]
    | |- steps _ (match ?x with _ => _ end) => destruct x
    end.

(** ** What each function leaves alone *)

Section frames.
Context {B : Type} (f : state → B).
Hypothesis f_gameBoard : ∀ g s, f (with_gameBoard g s) = f s.
Hypothesis f_audioLog : ∀ l s, f (with_audioLog l s) = f s.

Lemma update_element_same k h : steps (same f) (update_element k h).
Proof. unfold update_element. frame. apply f_gameBoard. Qed.

Lemma playSound_same key : steps (same f) (playSound key).
Proof. unfold playSound, log. frame; apply f_audioLog. Qed.

Lemma highlightWinningCells_same w :
  steps (same f) (highlightWinningCells w).
Proof.
  unfold highlightWinningCells, querySelectorAll. frame.
  apply update_element_same.
Qed.
End frames.

Lemma checkWinner_steps R `{!PreOrder R} : steps R checkWinner.
Proof. unfold checkWinner. frame. Qed.

(** Frame goals for the variables of the game, which no page or sound
    operation touches. *)
Ltac frame_game :=
  frame;
  try match goal with
    | |- steps _ (update_element _ _) => by apply update_element_same
    | |- steps _ (playSound _) => by apply playSound_same
    | |- steps _ (highlightWinningCells _) => by apply highlightWinningCells_same
    | |- steps _ checkWinner => apply checkWinner_steps; apply _
    | |- steps _ (updateStatus _) => by intros ?
    | |- same _ _ _ => reflexivity
    end.

(** ** [handleCellClick] *)

Section handleCellClick_facts.
Variables (index : Z) (cellElement : nat) (s : state).

Lemma handleCellClick_ignored :
  ignored index s = true → handleCellClick index cellElement s = (Return tt, s).
Proof.
  unfold ignored. intros G. unfold handleCellClick.
  rewrite !bind_gets. by rewrite G.
Qed.

(** Whatever happens after line 110, the board keeps the value written
    there. *)
Lemma handleCellClick_boardState :
  ignored index s = false →
  boardState (exec (handleCellClick index cellElement) s)
  = set (boardState s) index (str (currentPlayer s)).
Proof.
  unfold ignored. intros G. unfold exec, handleCellClick.
  rewrite !bind_gets, G, bind_gets, bind_modify.
  match goal with
  | |- boardState (?m ?s1).2 = _ =>
      assert (steps (same boardState) m) as H by frame_game;
      exact (H s1)
  end.
Qed.
End handleCellClick_facts.

(** ** The cell elements *)

Lemma classList_add_listener c e : listener (classList_add c e) = listener e.
Proof. unfold classList_add. by case_bool_decide. Qed.

Lemma classList_add_keeps c c' e :
  c' ∈ classList e → c' ∈ classList (classList_add c e).
Proof.
  unfold classList_add. case_bool_decide; [done|]. simpl. set_solver.
Qed.

Lemma classList_add_in c e : c ∈ classList (classList_add c e).
Proof.
  unfold classList_add. case_bool_decide; [done|]. simpl. set_solver.
Qed.

Lemma rendered_insert g k e e' :
  rendered g → g !! k = Some e →
  listener e' = listener e → ("cell" ∈ classList e → "cell" ∈ classList e') →
  rendered (<[k := e']> g).
Proof.
  intros [Hlen Hg] Hk Hl Hc. split; [by rewrite length_insert|].
  intros j ej Hj. destruct (decide (k = j)) as [->|Hne].
  - rewrite list_lookup_insert_eq in Hj by (by eapply lookup_lt_Some).
    injection Hj as <-. destruct (Hg _ _ Hk) as [? ?]. split; [congruence|auto].
  - rewrite list_lookup_insert_ne in Hj by done. by apply Hg.
Qed.

Lemma rendered_lookup g (k : nat) :
  rendered g → (k < 9)%nat → ∃ e, g !! k = Some e.
Proof.
  intros [Hlen _] Hk. apply lookup_lt_is_Some. lia.
Qed.

Lemma update_element_Some k h s e :
  gameBoard s !! k = Some e →
  update_element k h s
  = (Return tt, with_gameBoard (<[k := h e]> (gameBoard s)) s).
Proof.
  intros Hk. unfold update_element. rewrite bind_gets. by rewrite Hk.
Qed.

Lemma playSound_returns key s :
  ∃ l, playSound key s = (Return tt, with_audioLog l s).
Proof.
  unfold playSound. rewrite !bind_gets.
  destruct (audioContext s) as [[]|] eqn:Hc.
  - case_bool_decide; [|exists (audioLog s); by destruct s].
    eexists. reflexivity.
  - case_bool_decide; [|exists (audioLog s); by destruct s].
    eexists. reflexivity.
  - exists (audioLog s). by destruct s.
Qed.

Lemma querySelectorAll_from_all k c g :
  (∀ (j : nat) e, g !! j = Some e → c ∈ classList e) →
  querySelectorAll_from k c g = seq k (length g).
Proof.
  revert k. induction g as [|e g IH]; intros k Hg; simpl; [done|].
  rewrite bool_decide_eq_true_2 by (apply (Hg 0%nat); done).
  f_equal. apply IH. intros j ej Hj. by apply (Hg (S j)).
Qed.

Lemma querySelectorAll_run c s :
  querySelectorAll c s = (Return (querySelectorAll_from 0 c (gameBoard s)), s).
Proof. reflexivity. Qed.

Lemma forEach_cons {A} (x : A) l (f : A → M unit) :
  forEach (x :: l) f = (f x ;; forEach l f).
Proof. reflexivity. Qed.

(** The loop of [highlightWinningCells] over indices that are all on the
    grid: it returns, leaves the cells rendered, keeps every class that was
    there and puts [winning] on the cells visited. *)
Lemma highlight_loop (l : list nat) s :
  rendered (gameBoard s) → (∀ i, i ∈ l → (i < 9)%nat) →
  ∃ g', forEach l (λ index,
          match seq 0 9 !! index with
          | Some k => update_element k (classList_add "winning")
          | None => throw
          end) s = (Return tt, with_gameBoard g' s)
    ∧ rendered g'
    ∧ (∀ (k : nat) e c, gameBoard s !! k = Some e → c ∈ classList e →
         ∃ e', g' !! k = Some e' ∧ c ∈ classList e')
    ∧ (∀ i, i ∈ l → ∃ e, g' !! i = Some e ∧ "winning" ∈ classList e).
Proof.
  revert s. induction l as [|x l IH]; intros s Hr Hl.
  - exists (gameBoard s). split; [by destruct s|].
    split; [done|]. split; [eauto|]. intros i Hi. by apply elem_of_nil in Hi.
  - assert (x < 9)%nat as Hx by (apply Hl; left).
    destruct (rendered_lookup _ _ Hr Hx) as [e He].
    rewrite forEach_cons.
    erewrite bind_return; last first.
    { cbv beta. rewrite lookup_seq_lt by done. simpl. by apply update_element_Some. }
    destruct (IH (with_gameBoard (<[x := classList_add "winning" e]> (gameBoard s)) s))
      as (g' & Hrun & Hr' & Hkeep & Hwin).
    { simpl. eapply rendered_insert; eauto using classList_add_listener, classList_add_keeps. }
    { intros i Hi. apply Hl. by right. }
    exists g'. split; [exact Hrun|]. split; [done|]. split.
    + intros k ek c Hk Hc. simpl in Hkeep.
      destruct (decide (x = k)) as [->|Hne].
      * apply (Hkeep k (classList_add "winning" e) c).
        -- apply list_lookup_insert_eq. by eapply lookup_lt_Some.
        -- apply classList_add_keeps. congruence.
      * apply (Hkeep k ek c); [|done]. by rewrite list_lookup_insert_ne.
    + intros i Hi. apply elem_of_cons in Hi as [->|Hi]; [|by apply Hwin].
      apply (Hkeep x (classList_add "winning" e) "winning").
      * apply list_lookup_insert_eq. by eapply lookup_lt_Some.
      * apply classList_add_in.
Qed.

Lemma highlightWinningCells_rendered w s :
  rendered (gameBoard s) → (∀ i, i ∈ indices w → (i < 9)%nat) →
  ∃ g', highlightWinningCells w s = (Return tt, with_gameBoard g' s)
    ∧ rendered g' ∧ highlighted g' w.
Proof.
  intros Hr Hw. unfold highlightWinningCells.
  rewrite (bind_return _ _ _ _ _ (querySelectorAll_run "cell" s)).
  rewrite querySelectorAll_from_all by (intros j e Hj; by apply Hr in Hj as [_ ?]).
  destruct Hr as [Hlen Hg]. rewrite Hlen.
  destruct (highlight_loop (indices w) s) as (g' & Hrun & Hr' & _ & Hwin);
    [by split | done |].
  exists g'. split; [exact Hrun|]. by split.
Qed.

(** ** [checkWinner] *)

Lemma line_test board (a b c : nat) :
  truthy (get board (Z.of_nat a))
  && strict_eq (get board (Z.of_nat a)) (get board (Z.of_nat b))
  && strict_eq (get board (Z.of_nat a)) (get board (Z.of_nat c)) = true
  ↔ won board (a, b, c).
Proof.
  rewrite !andb_true_iff, !strict_eq_true, truthy_str. unfold won, won_by.
  split.
  - intros [[[p Hp] Hb] Hc]. exists p. split_and!; congruence.
  - intros (p & Ha & Hb & Hc). split_and!; [eauto|congruence..].
Qed.

Lemma checkWinner_from_None board l :
  checkWinner_from board l = None ↔ ∀ w, w ∈ l → ¬ won board w.
Proof.
  induction l as [|[[a b] c] l IH]; simpl.
  - split; [|done]. intros _ w Hw. by apply elem_of_nil in Hw.
  - destruct (_ && _) eqn:Hline at 1.
    + apply line_test in Hline. split; [done|].
      intros H. destruct (H (a, b, c)); [left|done].
    + rewrite IH. split.
      * intros H w Hw. apply elem_of_cons in Hw as [->|Hw]; [|by apply H].
        rewrite <- line_test. by rewrite Hline.
      * intros H w Hw. apply H. by right.
Qed.

Lemma checkWinner_from_Some board l v w :
  checkWinner_from board l = Some (v, w) →
  ∃ p, v = str p ∧ first_won l board p w.
Proof.
  induction l as [|[[a b] c] l IH]; simpl; [done|].
  destruct (_ && _) eqn:Hline at 1.
  - intros [= <- <-]. pose proof Hline as Hwon.
    apply line_test in Hwon as (p & Ha & Hb & Hc).
    exists p. split; [done|]. exists 0%nat. split; [done|].
    split; [done|]. intros m w' Hm. lia.
  - intros H. destruct (IH H) as (p & -> & n & Hn & Hwon & Hfirst).
    exists p. split; [done|]. exists (S n). split; [done|]. split; [done|].
    intros [|m] w' Hm Hw'.
    + injection Hw' as <-. rewrite <- line_test. by rewrite Hline.
    + simpl in Hw'. apply (Hfirst m); [lia|done].
Qed.

Lemma first_won_elem l board p w : first_won l board p w → w ∈ l.
Proof. intros (n & Hn & _). by eapply list_elem_of_lookup_2. Qed.

Lemma WINNING_COMBINATIONS_on_grid w i :
  w ∈ WINNING_COMBINATIONS → i ∈ indices w → (i < 9)%nat.
Proof.
  unfold WINNING_COMBINATIONS. rewrite !elem_of_cons, elem_of_nil.
  intros [->|[->|[->|[]]]]; simpl; rewrite !elem_of_cons, elem_of_nil;
    intros [->|[->|[->|[]]]]; lia.
Qed.

(** ** Nine-cell boards *)

Lemma nine_cells_get board i :
  nine_cells board → 0 ≤ i < 9 →
  items board !! Z.to_nat i = Some (get board i) ∧ get board i ≠ undefined.
Proof.
  intros (Hlen & Hu & _) Hi. unfold get.
  rewrite (proj2 (is_array_index_spec i)) by lia.
  destruct (lookup_lt_is_Some_2 (items board) (Z.to_nat i)) as [v Hv]; [lia|].
  rewrite Hv. simpl. split; [done|]. intros ->.
  apply Hu. by eapply list_elem_of_lookup_2.
Qed.

Lemma nine_cells_set board i p :
  nine_cells board → 0 ≤ i < 9 → nine_cells (set board i (str p)).
Proof.
  intros (Hlen & Hu & Hp) Hi.
  rewrite set_in_range by (rewrite ?is_array_index_spec; lia).
  split_and!; simpl; [by rewrite length_insert| |done].
  intros Hin. apply list_elem_of_lookup in Hin as [j Hj].
  destruct (decide (Z.to_nat i = j)) as [<-|Hne].
  - rewrite list_lookup_insert_eq in Hj by lia. done.
  - rewrite list_lookup_insert_ne in Hj by done.
    apply Hu. by eapply list_elem_of_lookup_2.
Qed.

Lemma every_not_null_full board :
  nine_cells board → every_not_null board = true ↔ full board.
Proof.
  intros Hb. unfold every_not_null, full. rewrite forallb_forall. split.
  - intros H i Hi. destruct (nine_cells_get _ _ Hb Hi) as [Hv Hu].
    specialize (H (get board i)). rewrite negb_true_iff in H.
    assert (strict_eq (get board i) null = false) as Hn.
    { apply H. apply list_elem_of_In. by eapply list_elem_of_lookup_2. }
    destruct (get board i); [|done..].
    by rewrite (proj2 (strict_eq_true null null)) in Hn.
  - intros H v Hv. apply list_elem_of_In, list_elem_of_lookup in Hv as [j Hj].
    assert (j < 9)%nat as Hlt.
    { destruct Hb as [<- _]. by eapply lookup_lt_Some. }
    specialize (H (Z.of_nat j) ltac:(lia)).
    destruct (nine_cells_get board (Z.of_nat j) Hb ltac:(lia)) as [Hv _].
    rewrite Nat2Z.id, Hj in Hv. injection Hv as ->.
    apply truthy_str in H as [p ->]. reflexivity.
Qed.

(** ** An accepted move on a rendered page *)

(** With the nine cells in place and [cellElement] one of them, an accepted
    move runs to the end of [handleCellClick] and lands in one of its three
    outcomes, decided by [checkWinner] and by [every] on the board just
    written. *)
Lemma handleCellClick_accepted index cellElement s :
  ignored index s = false →
  rendered (gameBoard s) → (cellElement < 9)%nat →
  let board := set (boardState s) index (str (currentPlayer s)) in
  ∃ s', handleCellClick index cellElement s = (Return tt, s')
    ∧ boardState s' = board
    ∧ rendered (gameBoard s')
    ∧ audioContext s' = audioContext s
    ∧ audioBuffers s' = audioBuffers s
    ∧ match checkWinner_from board WINNING_COMBINATIONS with
      | Some (winner, w) =>
          isGameActive s' = false ∧ currentPlayer s' = currentPlayer s
          ∧ gameStatus s' = "Player " +:+ to_string winner +:+ " Wins!"
          ∧ highlighted (gameBoard s') w
      | None =>
          if every_not_null board then
            isGameActive s' = false ∧ currentPlayer s' = currentPlayer s
            ∧ gameStatus s' = "It's a Draw!"
          else
            isGameActive s' = true
            ∧ currentPlayer s' = other (currentPlayer s)
            ∧ gameStatus s'
              = "Player " +:+ player_text (other (currentPlayer s)) +:+ "'s Turn"
      end.
Proof.
  intros G Hr Hk board. unfold handleCellClick.
  unfold ignored in G.
  assert (isGameActive s = true) as Hact by (by destruct (isGameActive s)). rewrite !bind_gets, G, bind_gets, bind_modify.
  fold board.
  destruct (rendered_lookup _ _ Hr Hk) as [e He].
  set (s1 := with_boardState board s).
  erewrite bind_return by (by apply update_element_Some).
  set (e1 := set_textContent _ e).
  set (s2 := with_gameBoard _ s1).
  assert (gameBoard s2 !! cellElement = Some e1) as He1.
  { apply list_lookup_insert_eq. by eapply lookup_lt_Some. }
  erewrite bind_return by (by apply update_element_Some).
  set (e2 := classList_add _ e1).
  set (s3 := with_gameBoard _ s2).
  assert (rendered (gameBoard s3)) as Hr3.
  { simpl. eapply rendered_insert; [|done|..].
    - eapply rendered_insert; [done..| |]; done.
    - unfold e2. by rewrite classList_add_listener.
    - unfold e2. apply classList_add_keeps. }
  destruct (playSound_returns place s3) as [l1 Hp1].
  rewrite (bind_return _ _ _ _ _ Hp1).
  set (s4 := with_audioLog l1 s3).
  rewrite (bind_return _ _ s4 (checkWinner_from board WINNING_COMBINATIONS) s4)
    by reflexivity.
  destruct (checkWinner_from board WINNING_COMBINATIONS) as [[winner w]|] eqn:Hw.
  - rewrite bind_modify. unfold updateStatus. rewrite bind_modify.
    set (s5 := with_gameStatus _ _).
    destruct (checkWinner_from_Some _ _ _ _ Hw) as (p & -> & Hfirst).
    destruct (highlightWinningCells_rendered w s5) as (g' & Hh & Hr' & Hhl).
    { exact Hr3. }
    { intros i. apply WINNING_COMBINATIONS_on_grid. by eapply first_won_elem. }
    rewrite (bind_return _ _ _ _ _ Hh).
    destruct (playSound_returns win (with_gameBoard g' s5)) as [l2 ->].
    eexists. split; [reflexivity|]. simpl. by split_and!.
  - rewrite bind_gets.
    change (boardState s4) with board.
    destruct (every_not_null board).
    + rewrite bind_modify. eexists. split; [reflexivity|]. simpl. split_and!; try done; exact Hr3.
    + rewrite bind_modify, bind_gets.
      eexists. split; [reflexivity|]. simpl. split_and!; try done; exact Hr3.
Qed.

(** ** Counting marks *)

Lemma filter_length_insert {A} (P : A → Prop) `{!∀ x, Decision (P x)}
    (l : list A) (n : nat) (old new : A) :
  l !! n = Some old →
  (length (filter P (<[n := new]> l)) + (if decide (P old) then 1 else 0)
   = length (filter P l) + (if decide (P new) then 1 else 0))%nat.
Proof.
  revert n. induction l as [|x l IH]; intros [|n] Hn; simpl in *; try done.
  - injection Hn as ->. rewrite !filter_cons.
    destruct (decide (P old)), (decide (P new)); simpl; lia.
  - rewrite !filter_cons. specialize (IH n Hn).
    destruct (decide (P x)); simpl; lia.
Qed.

Lemma count_marks_set board i p q :
  nine_cells board → 0 ≤ i < 9 → truthy (get board i) = false →
  count_marks p (set board i (str q))
  = (count_marks p board + (if decide (p = q) then 1 else 0))%nat.
Proof.
  intros Hb Hi Hfree. destruct (nine_cells_get _ _ Hb Hi) as [Hv _].
  destruct Hb as (Hlen & _ & _).
  rewrite set_in_range by (rewrite ?is_array_index_spec; lia).
  unfold count_marks. simpl.
  pose proof (filter_length_insert (λ v, v = str p) (items board)
                (Z.to_nat i) (get board i) (str q) Hv) as H.
  destruct (decide (get board i = str p)) as [Heq|_].
  { rewrite Heq in Hfree. done. }
  destruct (decide (str q = str p)) as [[= ->]|Hne].
  - rewrite decide_True by done. lia.
  - rewrite decide_False by congruence. lia.
Qed.

(** ** The reset and the first rendering *)

Lemma renderBoard_run s :
  renderBoard s
  = (Return tt,
     with_gameStatus ("Player " +:+ player_text (currentPlayer s) +:+ "'s Turn")
       (with_gameBoard (new_cell <$> seq 0 9) s)).
Proof. reflexivity. Qed.

Lemma rendered_new : rendered (new_cell <$> seq 0 9).
Proof.
  split; [done|]. intros k e Hk.
  apply list_lookup_fmap_Some in Hk as (i & -> & Hi).
  apply lookup_seq in Hi as [-> _]. simpl. split; [done|set_solver].
Qed.

Lemma resetGame_run s :
  resetGame s
  = (Return tt,
     State (fill_null (boardState s)) X true (new_cell <$> seq 0 9)
           "Player X's Turn" (audioContext s) (audioBuffers s) (audioLog s)).
Proof. reflexivity. Qed.

Lemma nine_cells_empty : nine_cells empty_board.
Proof.
  split_and!; [done| |done]. unfold empty_board, items.
  rewrite elem_of_replicate. by intros [? _].
Qed.

Lemma fill_null_nine board : nine_cells board → fill_null board = empty_board.
Proof.
  intros (Hlen & _ & Hp). unfold fill_null, empty_board. by rewrite Hlen, Hp.
Qed.

Lemma not_full_empty : ¬ full empty_board.
Proof. intros H. by specialize (H 0 ltac:(lia)). Qed.

Lemma invariant_fresh g t c bufs l :
  rendered g → invariant (State empty_board X true g t c bufs l).
Proof.
  intros Hr. split; [apply nine_cells_empty|]. split; [done|]. simpl.
  split; [done|]. split; [apply not_full_empty|done].
Qed.

Lemma invariant_loaded ctx : invariant (loaded ctx).
Proof.
  destruct ctx as [c|]; apply invariant_fresh, rendered_new.
Qed.

(** ** The invariant of the page *)

Lemma ignored_false index s :
  ignored index s = false →
  isGameActive s = true ∧ truthy (get (boardState s) index) = false.
Proof.
  unfold ignored. rewrite orb_false_iff, negb_false_iff. done.
Qed.

Lemma handleCellClick_invariant (k : nat) s :
  invariant s → (k < 9)%nat →
  invariant (exec (handleCellClick (Z.of_nat k) k) s).
Proof.
  intros Hinv Hk. unfold exec.
  destruct (ignored (Z.of_nat k) s) eqn:G.
  { by rewrite handleCellClick_ignored. }
  destruct (ignored_false _ _ G) as [Hact Hfree].
  destruct Hinv as (Hnine & Hr & Hgame). rewrite Hact in Hgame.
  destruct Hgame as (_ & _ & Hcount).
  destruct (handleCellClick_accepted (Z.of_nat k) k s G Hr Hk)
    as (s' & -> & Hb & Hr' & _ & _ & Hout).
  simpl. unfold invariant. rewrite Hb.
  set (board := set (boardState s) (Z.of_nat k) (str (currentPlayer s))) in *.
  assert (nine_cells board) as Hnine' by (apply nine_cells_set; [done|lia]).
  assert (∀ p, count_marks p board
    = (count_marks p (boardState s)
       + (if decide (p = currentPlayer s) then 1 else 0))%nat) as Hc.
  { intros p. apply count_marks_set; [done|lia|done]. }
  assert (count_marks X board = count_marks O board
          ∨ count_marks X board = S (count_marks O board)) as Hbal.
  { rewrite !Hc. destruct (currentPlayer s); simpl in *; lia. }
  split; [done|]. split; [done|].
  destruct (checkWinner_from board WINNING_COMBINATIONS) as [[winner w]|] eqn:Hw.
  - destruct Hout as (-> & _ & Hst & Hhl). split; [done|]. right.
    destruct (checkWinner_from_Some _ _ _ _ Hw) as (p & -> & Hfirst).
    by exists p, w.
  - destruct (every_not_null board) eqn:Hev.
    + destruct Hout as (-> & _ & Hst). split; [done|]. left.
      split; [done|]. split; [by apply every_not_null_full|done].
    + destruct Hout as (-> & -> & Hst). split; [done|]. split.
      * rewrite <- every_not_null_full by done. by rewrite Hev.
      * rewrite !Hc. destruct (currentPlayer s); simpl in *; lia.
Qed.

Lemma dispatch_invariant e s : invariant s → invariant (exec (dispatch e) s).
Proof.
  intros Hinv. destruct e as [k| |key|st]; unfold exec; simpl dispatch.
  - rewrite bind_gets. destruct (gameBoard s !! k) as [cell|] eqn:Hcell; [|done].
    destruct Hinv as (Hnine & Hr & Hgame).
    destruct (proj2 Hr _ _ Hcell) as [-> _].
    apply handleCellClick_invariant; [by split|].
    destruct Hr as [<- _]. by eapply lookup_lt_Some.
  - rewrite resetGame_run. simpl.
    rewrite fill_null_nine by apply Hinv.
    apply invariant_fresh, rendered_new.
  - rewrite bind_gets. by destruct (audioContext s).
  - rewrite bind_gets. by destruct (audioContext s).
Qed.

Lemma run_snoc es e s : run (es ++ [e]) s = exec (dispatch e) (run es s).
Proof. unfold run. by rewrite foldl_app. Qed.

Lemma run_invariant es ctx : invariant (run es (loaded ctx)).
Proof.
  induction es as [|e es IH] using rev_ind.
  - apply invariant_loaded.
  - rewrite run_snoc. by apply dispatch_invariant.
Qed.

(** * The claims *)

(** ** Moves that are refused *)

(** C3: a move aimed at a cell that already holds a mark changes nothing.
    In any state, for any index and any cell element, [handleCellClick]
    returns normally and the whole state (board, current player, activity
    flag, status line, cells, sound) is the one it started from. *)
Theorem occupied_cell_ignored index cellElement s :
  truthy (get (boardState s) index) = true →
  handleCellClick index cellElement s = (Return tt, s).
Proof.
  intros Hocc. apply handleCellClick_ignored.
  unfold ignored. rewrite Hocc. apply orb_true_r.
Qed.

Lemma occupied_cell_ignored_witness :
  let s := run [CellClick 0] (loaded None) in
  get (boardState s) 0 = str X
  ∧ handleCellClick 0 0 s = (Return tt, s).
Proof.
  split; [reflexivity|]. apply occupied_cell_ignored. reflexivity.
Defined.

Lemma run_clicks_inactive ks s :
  isGameActive s = false → run (CellClick <$> ks) s = s.
Proof.
  intros Hend. induction ks as [|k ks IH]; [done|].
  unfold run in *. simpl. unfold exec at 2. simpl dispatch. rewrite bind_gets.
  destruct (gameBoard s !! k); [|exact IH].
  rewrite handleCellClick_ignored; [exact IH|].
  unfold ignored. by rewrite Hend.
Qed.

(** C4: once the game has ended ([isGameActive] is false, the status being
    a win or a draw), a call of [handleCellClick] at any index, and any
    sequence of clicks on the cells, leave the state as it is; every event
    other than a click on the reset button keeps the board, the player,
    the flag, the status line and the cells; the reset makes the game
    active again. *)
Theorem ended_game_frozen s :
  isGameActive s = false →
  (∀ index cellElement, handleCellClick index cellElement s = (Return tt, s))
  ∧ (∀ ks, run (CellClick <$> ks) s = s)
  ∧ (∀ e, e ≠ ResetClick →
       let s' := exec (dispatch e) s in
       boardState s' = boardState s ∧ currentPlayer s' = currentPlayer s
       ∧ isGameActive s' = false ∧ gameStatus s' = gameStatus s
       ∧ gameBoard s' = gameBoard s)
  ∧ isGameActive (exec (dispatch ResetClick) s) = true.
Proof.
  intros Hend.
  assert (∀ index cellElement,
    handleCellClick index cellElement s = (Return tt, s)) as Hclick.
  { intros. apply handleCellClick_ignored. unfold ignored. by rewrite Hend. }
  split; [exact Hclick|]. split; [intros; by apply run_clicks_inactive|].
  split; [|reflexivity].
  intros [k| |key|st] Hne; unfold exec; simpl dispatch; [|done|..].
  - rewrite bind_gets. destruct (gameBoard s !! k); [|done].
    by rewrite Hclick.
  - rewrite bind_gets. by destruct (audioContext s).
  - rewrite bind_gets. by destruct (audioContext s).
Qed.

Lemma ended_game_frozen_witness :
  let s := run (CellClick <$> [0; 4; 1; 3; 2]%nat) (loaded None) in
  isGameActive s = false
  ∧ handleCellClick 8 8 s = (Return tt, s)
  ∧ isGameActive (exec (dispatch ResetClick) s) = true.
Proof.
  pose proof (ended_game_frozen
    (run (CellClick <$> [0; 4; 1; 3; 2]%nat) (loaded None)) eq_refl) as H.
  split; [reflexivity|]. split; [apply H|apply H].
Defined.

(** ** Reset *)

(** C5: [resetGame] never fails and, from any state, leaves player X to
    move, the game active, the status line and the cells as on a freshly
    loaded page, and every indexed element of the board [null]; when the
    board has its nine entries and nothing else, the board is again
    [Array(9).fill(null)], so that the game is exactly as after loading. *)
Theorem resetGame_initial_state s :
  let s' := exec resetGame s in
  resetGame s = (Return tt, s')
  ∧ currentPlayer s' = X
  ∧ isGameActive s' = true
  ∧ gameStatus s' = "Player X's Turn"
  ∧ gameBoard s' = gameBoard (loaded None)
  ∧ (∀ i, 0 ≤ i < Z.of_nat (length (items (boardState s))) →
       i < 2 ^ 32 - 1 → get (boardState s') i = null)
  ∧ (length (items (boardState s)) = 9%nat → props (boardState s) = ∅ →
       boardState s' = empty_board
       ∧ s' = State empty_board X true (gameBoard (loaded None))
                    (gameStatus (loaded None))
                    (audioContext s) (audioBuffers s) (audioLog s)).
Proof.
  cbv zeta. unfold exec. rewrite resetGame_run. cbn [snd].
  split_and!; try reflexivity.
  - intros i Hi Hmax. unfold get, fill_null. cbn [items boardState].
    rewrite (proj2 (is_array_index_spec i)) by lia.
    by rewrite lookup_replicate_2 by lia.
  - intros Hlen Hp. unfold fill_null. rewrite Hlen, Hp. done.
Qed.

Lemma resetGame_initial_state_witness :
  let s := run (CellClick <$> [0; 4; 1; 3; 2]%nat) (loaded None) in
  exec resetGame s = loaded None.
Proof.
  pose proof (resetGame_initial_state
    (run (CellClick <$> [0; 4; 1; 3; 2]%nat) (loaded None))) as H.
  cbv zeta in H. destruct H as (_ & _ & _ & _ & _ & _ & H).
  destruct H as [_ H]; [reflexivity..|]. cbv zeta. rewrite H. reflexivity.
Defined.

(** ** What a move writes *)

(** C10: an accepted move at index [i] changes the board at [i] and nowhere
    else.  The cell held no mark before (on the nine-cell board it held
    [null]), it holds the mover's mark after, and every other index reads
    as before; this does not depend on how the rest of the handler ends. *)
Theorem accepted_move_frame index cellElement s :
  ignored index s = false →
  let s' := exec (handleCellClick index cellElement) s in
  truthy (get (boardState s) index) = false
  ∧ (nine_cells (boardState s) → 0 ≤ index < 9 →
       get (boardState s) index = null)
  ∧ get (boardState s') index = str (currentPlayer s)
  ∧ ∀ j, j ≠ index → get (boardState s') j = get (boardState s) j.
Proof.
  intros G s'. unfold s'. rewrite handleCellClick_boardState by done.
  destruct (ignored_false _ _ G) as [_ Hfree].
  split; [done|]. split; [|split].
  - intros Hnine Hi. destruct (nine_cells_get _ _ Hnine Hi) as [_ Hu].
    by destruct (get (boardState s) index).
  - apply get_set_eq.
  - intros j Hj. by apply get_set_ne.
Qed.

Lemma accepted_move_frame_witness :
  let s := run [CellClick 0] (loaded None) in
  let s' := exec (handleCellClick 4 4) s in
  get (boardState s') 4 = str O
  ∧ get (boardState s') 0 = get (boardState s) 0.
Proof.
  pose proof (accepted_move_frame 4 4 (run [CellClick 0] (loaded None)) eq_refl)
    as (_ & _ & Hmark & Hrest).
  split; [exact Hmark|]. apply Hrest. lia.
Defined.

(** ** The outcome of an accepted move *)

(** C2: an accepted move (game in progress, target cell empty) on the
    nine-cell board sets the cell to the current player's mark.  Then, if
    some combination of [WINNING_COMBINATIONS] has its three cells non-empty
    and equal, the game ends as won: the status line names the player of
    the first such combination in list order and its cells are highlighted.
    Otherwise, if all nine cells hold a mark, the game ends as a draw.
    Otherwise the turn flips, from X to O or from O to X, the status line
    names the new player and the game goes on. *)
Theorem accepted_move_outcome index cellElement s :
  isGameActive s = true →
  0 ≤ index < 9 → get (boardState s) index = null →
  nine_cells (boardState s) → rendered (gameBoard s) →
  (cellElement < 9)%nat →
  let mover := currentPlayer s in
  let s' := exec (handleCellClick index cellElement) s in
  let board := boardState s' in
  handleCellClick index cellElement s = (Return tt, s')
  ∧ board = set (boardState s) index (str mover)
  ∧ get board index = str mover
  ∧ ((∃ p w, first_won WINNING_COMBINATIONS board p w
        ∧ isGameActive s' = false
        ∧ gameStatus s' = "Player " +:+ player_text p +:+ " Wins!"
        ∧ highlighted (gameBoard s') w
        ∧ currentPlayer s' = mover)
     ∨ ((∀ w, w ∈ WINNING_COMBINATIONS → ¬ won board w)
        ∧ full board
        ∧ isGameActive s' = false
        ∧ gameStatus s' = "It's a Draw!"
        ∧ currentPlayer s' = mover)
     ∨ ((∀ w, w ∈ WINNING_COMBINATIONS → ¬ won board w)
        ∧ ¬ full board
        ∧ isGameActive s' = true
        ∧ gameStatus s' = "Player " +:+ player_text (other mover) +:+ "'s Turn"
        ∧ currentPlayer s' = other mover
        ∧ currentPlayer s' ≠ mover
        ∧ match mover with
          | X => currentPlayer s' = O ∧ gameStatus s' = "Player O's Turn"
          | O => currentPlayer s' = X ∧ gameStatus s' = "Player X's Turn"
          end)).
Proof.
  intros Hact Hi Hnull Hnine Hr Hk mover s' board.
  assert (ignored index s = false) as G.
  { unfold ignored. by rewrite Hact, Hnull. }
  destruct (handleCellClick_accepted index cellElement s G Hr Hk)
    as (s1 & Hrun & Hb & _ & _ & _ & Hout).
  assert (s' = s1) as Hs' by (unfold s', exec; by rewrite Hrun).
  unfold board. rewrite Hs', Hb. clear board s' Hs'. fold mover in Hout |- *.
  set (board := set (boardState s) index (str mover)) in *.
  assert (nine_cells board) as Hnine' by by apply nine_cells_set.
  split; [done|]. split; [done|]. split; [apply get_set_eq|].
  destruct (checkWinner_from board WINNING_COMBINATIONS) as [[winner w]|] eqn:Hw.
  - left. destruct Hout as (He & Hp & Hst & Hhl).
    destruct (checkWinner_from_Some _ _ _ _ Hw) as (p & -> & Hfirst).
    by exists p, w.
  - right. pose proof (proj1 (checkWinner_from_None _ _) Hw) as Hnone.
    destruct (every_not_null board) eqn:Hev.
    + left. destruct Hout as (He & Hp & Hst).
      split; [done|]. split; [by apply every_not_null_full|done].
    + right. destruct Hout as (He & Hp & Hst).
      split; [done|]. split.
      { rewrite <- every_not_null_full by done. by rewrite Hev. }
      split; [done|]. split; [done|]. split; [done|].
      rewrite Hp, Hst. split; [by destruct mover|].
      by destruct mover.
Qed.

Lemma accepted_move_outcome_witness :
  (let s := run (CellClick <$> [0; 4; 1; 3]%nat) (loaded None) in
   let s' := exec (handleCellClick 2 2) s in
   handleCellClick 2 2 s = (Return tt, s')
   ∧ get (boardState s') 2 = str X)
  ∧ (let s := loaded None in
     let s' := exec (handleCellClick 0 0) s in
     currentPlayer s = X
     ∧ currentPlayer s' = O ∧ gameStatus s' = "Player O's Turn").
Proof.
  cbv zeta. split.
  - pose proof (accepted_move_outcome 2 2
      (run (CellClick <$> [0; 4; 1; 3]%nat) (loaded None))) as H.
    pose proof (run_invariant (CellClick <$> [0; 4; 1; 3]%nat) None)
      as (Hnine & Hr & _).
    cbv zeta in H.
    destruct H as (Hrun & _ & Hmark & _);
      [vm_compute; reflexivity | lia | vm_compute; reflexivity
      | exact Hnine | exact Hr | lia | ].
    split; [exact Hrun|exact Hmark].
  - pose proof (accepted_move_outcome 0 0 (loaded None)) as H.
    pose proof (invariant_loaded None) as (Hnine & Hr & _).
    cbv zeta in H.
    destruct H as (_ & _ & _ & H);
      [vm_compute; reflexivity | lia | vm_compute; reflexivity
      | exact Hnine | exact Hr | lia | ].
    assert (isGameActive (exec (handleCellClick 0 0) (loaded None)) = true)
      as Hact by (vm_compute; reflexivity).
    split; [reflexivity|].
    destruct H as [(p & w & _ & Hend & _)|[(_ & _ & Hend & _)|H]].
    + rewrite Hact in Hend. discriminate.
    + rewrite Hact in Hend. discriminate.
    + destruct H as (_ & _ & _ & _ & _ & _ & Hflip). exact Hflip.
Defined.

(** ** Invariants of the page *)

(** C6: after any sequence of events on the loaded page (cell clicks and
    resets included) the board holds as many X as O, or exactly one X
    more; there are never more O than X. *)
Theorem marks_balanced es ctx :
  let board := boardState (run es (loaded ctx)) in
  (count_marks X board = count_marks O board
   ∨ count_marks X board = S (count_marks O board))
  ∧ (count_marks O board ≤ count_marks X board)%nat.
Proof.
  intros board.
  assert (count_marks X board = count_marks O board
          ∨ count_marks X board = S (count_marks O board)) as H.
  { destruct (run_invariant es ctx) as (_ & _ & Hgame). fold board in Hgame.
    destruct (isGameActive _).
    - destruct Hgame as (_ & _ & Hc). destruct (currentPlayer _); auto.
    - apply Hgame. }
  split; [exact H|lia].
Qed.

(** C7: when a sequence of events on the loaded page leaves all nine cells
    filled and no row, column or diagonal held by one player, the game has
    ended and the status line announces a draw. *)
Theorem full_board_without_line_is_draw es ctx :
  let s := run es (loaded ctx) in
  full (boardState s) →
  (∀ w, w ∈ LINES → ¬ won (boardState s) w) →
  isGameActive s = false ∧ gameStatus s = "It's a Draw!".
Proof.
  intros s Hfull Hnoline.
  destruct (run_invariant es ctx) as (_ & _ & Hgame). fold s in Hgame.
  destruct (isGameActive s).
  - destruct Hgame as (_ & Hnot & _). done.
  - split; [done|]. destruct Hgame as (_ & [(_ & _ & Hst)|(p & w & Hwon & _)]).
    + exact Hst.
    + exfalso. apply (Hnoline w).
      * apply first_won_elem in Hwon. revert Hwon.
        unfold WINNING_COMBINATIONS, LINES. rewrite !elem_of_cons. tauto.
      * destruct Hwon as (_ & _ & Hw & _). by exists p.
Qed.

Lemma full_board_without_line_is_draw_witness :
  let s := run (CellClick <$> [0; 1; 2; 4; 3; 5; 7; 6; 8]%nat) (loaded None) in
  isGameActive s = false ∧ gameStatus s = "It's a Draw!".
Proof.
  apply (full_board_without_line_is_draw
           (CellClick <$> [0; 1; 2; 4; 3; 5; 7; 6; 8]%nat) None).
  - intros i Hi.
    assert (i = 0 ∨ i = 1 ∨ i = 2 ∨ i = 3 ∨ i = 4 ∨ i = 5 ∨ i = 6 ∨ i = 7 ∨ i = 8)
      as Hcases by lia.
    repeat (destruct Hcases as [->|Hcases]; [vm_compute; reflexivity|]).
    subst i. vm_compute. reflexivity.
  - intros w Hw [p Hp]. unfold LINES in Hw.
    rewrite !elem_of_cons, elem_of_nil in Hw.
    repeat (destruct Hw as [->|Hw];
            [vm_compute in Hp; destruct p; intuition discriminate|]).
    done.
Defined.

(** C8: in every state the page can reach, an active game has no winner on
    its board; so when an accepted move makes [checkWinner] report a
    winner, that winner is the player who has just moved. *)
Theorem winner_is_mover es ctx :
  let s := run es (loaded ctx) in
  (isGameActive s = true →
     checkWinner_from (boardState s) WINNING_COMBINATIONS = None)
  ∧ ∀ index winner w,
      ignored index s = false →
      checkWinner_from (set (boardState s) index (str (currentPlayer s)))
        WINNING_COMBINATIONS = Some (winner, w) →
      winner = str (currentPlayer s).
Proof.
  intros s.
  assert (isGameActive s = true →
    checkWinner_from (boardState s) WINNING_COMBINATIONS = None) as Hnone.
  { intros Hact. destruct (run_invariant es ctx) as (_ & _ & Hgame).
    fold s in Hgame. rewrite Hact in Hgame. apply Hgame. }
  split; [exact Hnone|].
  intros index winner w G Hw.
  destruct (ignored_false _ _ G) as [Hact _].
  destruct (checkWinner_from_Some _ _ _ _ Hw) as (p & -> & Hfirst).
  pose proof (first_won_elem _ _ _ _ Hfirst) as Hin.
  destruct Hfirst as (_ & _ & Hwon & _).
  pose proof (proj1 (checkWinner_from_None _ _) (Hnone Hact) w Hin) as Hnot.
  destruct w as [[a b] c]. destruct Hwon as (Ha & Hb & Hc).
  (* one of the three cells is the one just written *)
  destruct (decide (Z.of_nat a = index)) as [<-|Hna].
  { rewrite get_set_eq in Ha. done. }
  destruct (decide (Z.of_nat b = index)) as [<-|Hnb].
  { rewrite get_set_eq in Hb. done. }
  destruct (decide (Z.of_nat c = index)) as [<-|Hnc].
  { rewrite get_set_eq in Hc. done. }
  rewrite get_set_ne in Ha, Hb, Hc by done.
  exfalso. apply Hnot. by exists p.
Qed.

Lemma winner_is_mover_witness :
  let s := run (CellClick <$> [0; 4; 1; 3]%nat) (loaded None) in
  checkWinner_from (boardState s) WINNING_COMBINATIONS = None
  ∧ checkWinner_from (set (boardState s) 2 (str (currentPlayer s)))
      WINNING_COMBINATIONS = Some (str X, (0, 1, 2)%nat)
  ∧ str X = str (currentPlayer s).
Proof.
  cbv zeta.
  pose proof (winner_is_mover (CellClick <$> [0; 4; 1; 3]%nat) None) as H.
  cbv zeta in H. destruct H as [Hnone Hmover].
  split; [apply Hnone; vm_compute; reflexivity|].
  split; [vm_compute; reflexivity|].
  apply (Hmover 2 (str X) (0, 1, 2)%nat); vm_compute; reflexivity.
Defined.

(** ** Indices off the grid *)

(** C9 as stated fails at index [-1]: on the freshly loaded page the guard
    passes and the mark is stored under the key [-1], but the array is not
    extended; it still has nine entries. *)
Lemma negative_index_keeps_nine_entries :
  let s := loaded None in
  let s' := exec (handleCellClick (-1) 0) s in
  isGameActive s = true
  ∧ ignored (-1) s = false
  ∧ get (boardState s') (-1) = str X
  ∧ ¬ (9 < length (items (boardState s')))%nat.
Proof.
  cbv zeta. split_and!; [vm_compute; reflexivity..|].
  assert (length (items (boardState (exec (handleCellClick (-1) 0) (loaded None))))
          = 9%nat) as -> by (vm_compute; reflexivity).
  lia.
Qed.

(** C9, amended: [handleCellClick] does not check the range of [index].
    On an active game with the nine-cell board, for any integer index
    outside 0..8 the guard passes (the board reads [undefined] there) and
    the current player's mark is written at that index.  If the index is an
    array index (from 9 up to [2^32 - 2]) the array grows to [index + 1]
    entries, more than nine; otherwise (a negative index, or one from
    [2^32 - 1] on) the mark is stored as a property under that key and the
    array keeps its nine entries.  The page itself never gets there: in
    every state it can reach the board has its nine cells and each cell's
    listener passes an index from 0 to 8. *)
Theorem index_not_validated :
  (∀ s index cellElement,
     isGameActive s = true → nine_cells (boardState s) →
     ¬ (0 ≤ index < 9) →
     let s' := exec (handleCellClick index cellElement) s in
     get (boardState s) index = undefined
     ∧ ignored index s = false
     ∧ get (boardState s') index = str (currentPlayer s)
     ∧ (is_array_index index = true →
          length (items (boardState s')) = S (Z.to_nat index)
          ∧ (9 < length (items (boardState s')))%nat)
     ∧ (is_array_index index = false →
          length (items (boardState s')) = 9%nat
          ∧ props (boardState s') !! index = Some (str (currentPlayer s))))
  ∧ (∀ es ctx,
       let s := run es (loaded ctx) in
       nine_cells (boardState s)
       ∧ ∀ (k : nat) cell, gameBoard s !! k = Some cell →
           (listener cell < 9)%nat
           ∧ dispatch (CellClick k) s
             = handleCellClick (Z.of_nat (listener cell)) k s).
Proof.
  split.
  - intros s index cellElement Hact (Hlen & Hu & Hp) Hout s'.
    assert (get (boardState s) index = undefined) as Hundef.
    { unfold get. destruct (is_array_index index) eqn:Hi.
      - apply is_array_index_spec in Hi.
        by rewrite lookup_ge_None_2 by lia.
      - by rewrite Hp, lookup_empty. }
    assert (ignored index s = false) as G.
    { unfold ignored. by rewrite Hact, Hundef. }
    unfold s'. rewrite handleCellClick_boardState by done.
    split; [done|]. split; [done|]. split; [apply get_set_eq|]. split.
    + intros Hi. rewrite length_set_index by done.
      apply is_array_index_spec in Hi. lia.
    + intros Hi. rewrite set_not_index by done. simpl.
      split; [done|]. apply lookup_insert_eq.
  - intros es ctx s. destruct (run_invariant es ctx) as (Hnine & Hr & _).
    fold s in Hnine, Hr. split; [done|].
    intros k cell Hk. destruct (proj2 Hr _ _ Hk) as [Hl _]. split.
    + rewrite Hl. destruct Hr as [<- _]. by eapply lookup_lt_Some.
    + simpl. rewrite bind_gets. by rewrite Hk.
Qed.

Lemma index_not_validated_witness :
  let s := loaded None in
  length (items (boardState (exec (handleCellClick 9 0) s))) = 10%nat
  ∧ length (items (boardState (exec (handleCellClick (-1) 0) s))) = 9%nat.
Proof.
  cbv zeta. destruct index_not_validated as [H _].
  pose proof (invariant_loaded None) as (Hnine & _).
  split.
  - refine (proj1 (proj1 (proj2 (proj2 (proj2
      (H (loaded None) 9 0%nat eq_refl Hnine _)))) _)); [lia|reflexivity].
  - refine (proj1 (proj2 (proj2 (proj2 (proj2
      (H (loaded None) (-1) 0%nat eq_refl Hnine _)))) _)); [lia|reflexivity].
Defined.

(** ** The combinations that are missing *)

(** C1 fails on the code: [WINNING_COMBINATIONS] lists the three rows only.
    After X has taken the left column (clicks on cells 0, 1, 3, 2, 6) the
    column is X's, yet no win is reported: the game is still active, it is
    O's turn, and no cell of the column is highlighted. *)
Theorem column_win_not_detected ctx :
  let s := run (CellClick <$> [0; 1; 3; 2; 6]%nat) (loaded ctx) in
  won_by (boardState s) X (0, 3, 6)%nat
  ∧ (0, 3, 6)%nat ∈ LINES
  ∧ checkWinner_from (boardState s) WINNING_COMBINATIONS = None
  ∧ isGameActive s = true
  ∧ currentPlayer s = O
  ∧ gameStatus s = "Player O's Turn"
  ∧ ¬ highlighted (gameBoard s) (0, 3, 6)%nat.
Proof.
  assert (∀ s, gameBoard s !! 0%nat = Some (Element "X" ["cell"; "x"] 0 0) →
               ¬ highlighted (gameBoard s) (0, 3, 6)%nat) as Hno.
  { intros s He H. destruct (H 0%nat) as (e & He' & Hin); [by left|].
    rewrite He in He'. injection He' as <-. simpl in Hin.
    rewrite !elem_of_cons, elem_of_nil in Hin.
    destruct Hin as [?|[?|[]]]; discriminate. }
  assert ((0, 3, 6)%nat ∈ LINES) as Hline.
  { unfold LINES. rewrite !elem_of_cons. do 3 right. by left. }
  cbv zeta. destruct ctx as [c|].
  - split; [by vm_compute|]. split; [exact Hline|].
    split_and!; [vm_compute; reflexivity..|].
    apply Hno. vm_compute. reflexivity.
  - split; [by vm_compute|]. split; [exact Hline|].
    split_and!; [vm_compute; reflexivity..|].
    apply Hno. vm_compute. reflexivity.
Qed.

(** ** Scenarios *)

(** X plays the top row (clicks on 0, 4, 1, 3, 2): the game ends, X is
    announced as the winner and the cells 0, 1, 2 are highlighted. *)
Example scenario_top_row :
  let s := run (CellClick <$> [0; 4; 1; 3; 2]%nat) (loaded None) in
  isGameActive s = false
  ∧ gameStatus s = "Player X Wins!"
  ∧ classList <$> gameBoard s
    = [ ["cell"; "x"; "winning"]; ["cell"; "x"; "winning"];
        ["cell"; "x"; "winning"]; ["cell"; "o"]; ["cell"; "o"];
        ["cell"]; ["cell"]; ["cell"]; ["cell"] ].
Proof. vm_compute. done. Qed.

(** A click on a cell already played leaves everything as it is. *)
Example scenario_replayed_cell :
  let s := run (CellClick <$> [0; 4]%nat) (loaded None) in
  run [CellClick 0] s = s.
Proof. vm_compute. done. Qed.

(** * Further properties *)

(** ** Sound *)

Lemma playSound_run key s :
  playSound key s
  = (Return tt, with_audioLog (audioLog (exec (playSound key) s)) s).
Proof.
  destruct (playSound_returns key s) as [l Hl]. unfold exec. by rewrite Hl.
Qed.

Lemma playSound_local key s1 s2 :
  audioContext s1 = audioContext s2 → audioBuffers s1 = audioBuffers s2 →
  audioLog s1 = audioLog s2 →
  audioLog (exec (playSound key) s1) = audioLog (exec (playSound key) s2).
Proof.
  intros Hc Hb Hl. unfold exec, playSound. rewrite !bind_gets, Hc, Hb.
  destruct (audioContext s2) as [[]|]; [| |done];
    case_bool_decide; simpl; by rewrite ?Hl.
Qed.

Lemma playSound_log_running key s :
  audioContext s = Some running → key ∈ audioBuffers s →
  audioLog (exec (playSound key) s) = (audioLog s ++ [Start key])%list.
Proof.
  intros Hc Hb. unfold exec, playSound. rewrite !bind_gets, Hc.
  by rewrite bool_decide_eq_true_2.
Qed.

Lemma playSound_log_none key s :
  audioContext s = None → audioLog (exec (playSound key) s) = audioLog s.
Proof.
  intros Hc. unfold exec, playSound. by rewrite !bind_gets, Hc.
Qed.

(** X1: [playSound] never throws and touches nothing but the log of audio
    calls.  Without an audio context, or while the buffer of [key] is not
    decoded, it does nothing at all.  Otherwise it starts the sound of
    [key], after asking a suspended context to resume, and makes no other
    call. *)
Theorem playSound_behaviour key s :
  ∃ calls,
    playSound key s = (Return tt, with_audioLog (audioLog s ++ calls) s)
    ∧ (audioContext s = None ∨ key ∉ audioBuffers s → calls = [])
    ∧ (key ∈ audioBuffers s →
         (audioContext s = Some running → calls = [Start key])
         ∧ (audioContext s = Some suspended → calls = [Resume; Start key])).
Proof.
  destruct s as [b p a g t c bufs l]. unfold playSound, log.
  rewrite !bind_gets. cbn [audioContext audioBuffers audioLog].
  destruct c as [[]|].
  - case_bool_decide as Hb.
    + exists [Resume; Start key]. split; [rewrite bind_modify; unfold modify, with_audioLog; cbn; by rewrite <- app_assoc|].
      split; [intros [|]; done|]. done.
    + exists []. rewrite app_nil_r. split; [done|]. done.
  - case_bool_decide as Hb.
    + exists [Start key]. split; [done|]. split; [intros [|]; done|]. done.
    + exists []. rewrite app_nil_r. split; [done|]. done.
  - exists []. rewrite app_nil_r. split; [done|]. done.
Qed.

Lemma playSound_behaviour_witness :
  let s := State empty_board X true [] "" (Some suspended) [win] [] in
  (∃ calls, playSound win s = (Return tt, with_audioLog (audioLog s ++ calls) s)
            ∧ calls = [Resume; Start win])
  ∧ (∃ calls, playSound place s = (Return tt, with_audioLog (audioLog s ++ calls) s)
            ∧ calls = []).
Proof.
  cbv zeta. split.
  - destruct (playSound_behaviour win
      (State empty_board X true [] "" (Some suspended) [win] []))
      as (calls & Hrun & _ & Hplay).
    exists calls. split; [exact Hrun|].
    apply Hplay; [apply list_elem_of_here|reflexivity].
  - destruct (playSound_behaviour place
      (State empty_board X true [] "" (Some suspended) [win] []))
      as (calls & Hrun & Hsilent & _).
    exists calls. split; [exact Hrun|].
    apply Hsilent. right. cbn [audioBuffers].
    rewrite elem_of_cons, elem_of_nil. intros [?|[]]. discriminate.
Defined.

(** ** The game does not depend on the sound *)

Section blind.
Context {A B : Type}.

Lemma blind_ret (a : A) : blind_to_sound (mret a : M A).
Proof. intros s1 s2 H. split; [reflexivity|exact H].
Qed.

Lemma blind_throw : blind_to_sound (throw : M A).
Proof. intros s1 s2 H. split; [reflexivity|exact H].
Qed.

Lemma blind_gets (f : state → A) :
  (∀ s1 s2, game s1 = game s2 → f s1 = f s2) → blind_to_sound (gets f).
Proof.
  intros Hf s1 s2 H. split; [|exact H]. cbn. f_equal. apply Hf, H.
Qed.

Lemma blind_bind (m : M A) (g : A → M B) :
  blind_to_sound m → (∀ a, blind_to_sound (g a)) → blind_to_sound (m ≫= g).
Proof.
  intros Hm Hg s1 s2 H. destruct (Hm s1 s2 H) as [Ho Hs].
  unfold mbind, M_bind.
  destruct (m s1) as [o1 t1], (m s2) as [o2 t2]. cbn [fst snd] in *.
  subst o2. destruct o1 as [a|]; [apply Hg, Hs|].
  split; [reflexivity|exact Hs].
Qed.
End blind.

Lemma blind_modify (h : state → state) :
  (∀ s1 s2, game s1 = game s2 → game (h s1) = game (h s2)) →
  blind_to_sound (modify h).
Proof. intros Hh s1 s2 H. split; [reflexivity|]. apply Hh, H.
Qed.

Lemma blind_forEach {A} (l : list A) (f : A → M unit) :
  (∀ x, blind_to_sound (f x)) → blind_to_sound (forEach l f).
Proof.
  intros Hf. induction l as [|x l IH]; simpl.
  - apply blind_ret.
  - apply blind_bind; [apply Hf | intros _; apply IH].
Qed.

Lemma blind_playSound key : blind_to_sound (playSound key).
Proof.
  intros s1 s2 H. rewrite (playSound_run key s1), (playSound_run key s2).
  split; [reflexivity|exact H].
Qed.

(** Walks through a handler, leaving the reads and writes to be checked. *)
Ltac blind :=
  repeat match goal with
    | |- blind_to_sound (mret _) => apply blind_ret
    | |- blind_to_sound throw => apply blind_throw
    | |- blind_to_sound (playSound _) => apply blind_playSound
    | |- blind_to_sound (gets _) =>
        apply blind_gets; intros ? ? [= ? ? ? ? ?]; try assumption
    | |- blind_to_sound (modify _) =>
        apply blind_modify; intros ? ? [= ? ? ? ? ?]; unfold game; simpl;
        try congruence
    | |- blind_to_sound (_ ≫= _) => apply blind_bind; [| intros ?]
    | |- blind_to_sound (forEach _ _) => apply blind_forEach; intros ?
    | |- blind_to_sound (match ?x with _ => _ end) => destruct x
    end.

Lemma blind_handleCellClick index cellElement :
  blind_to_sound (handleCellClick index cellElement).
Proof.
  unfold handleCellClick, checkWinner, highlightWinningCells,
    querySelectorAll, update_element, updateStatus.
  blind.
Qed.

Lemma blind_resetGame : blind_to_sound resetGame.
Proof. unfold resetGame, renderBoard, updateStatus. blind.
Qed.

Lemma blind_dispatch_click e :
  clicks_of [e] = [e] → blind_to_sound (dispatch e).
Proof.
  destruct e as [k| |key|st]; simpl; try done; intros _.
  - blind. apply blind_handleCellClick.
  - apply blind_resetGame.
Qed.

Lemma dispatch_sound_game e s :
  clicks_of [e] = [] → game (exec (dispatch e) s) = game s.
Proof.
  destruct e as [k| |key|st]; simpl; try done; intros _;
    unfold exec; rewrite bind_gets; by destruct (audioContext s).
Qed.

Lemma run_cons e es s : run (e :: es) s = run es (exec (dispatch e) s).
Proof. reflexivity.
Qed.

Lemma run_blind_to_sound es s1 s2 :
  game s1 = game s2 →
  game (run es s1) = game (run (clicks_of es) s2).
Proof.
  revert s1 s2. induction es as [|e es IH]; intros s1 s2 H; [exact H|].
  rewrite run_cons.
  assert (clicks_of [e] = [e] ∨ clicks_of [e] = []) as [Hc|Hc]
    by (destruct e; auto).
  - replace (clicks_of (e :: es)) with (e :: clicks_of es)
      by (by destruct e).
    rewrite run_cons. apply IH.
    apply (blind_dispatch_click e Hc s1 s2 H).
  - replace (clicks_of (e :: es)) with (clicks_of es) by (by destruct e).
    apply IH. rewrite dispatch_sound_game; [exact H|exact Hc].
Qed.


Lemma clicks_of_idemp es : clicks_of (clicks_of es) = clicks_of es.
Proof.
  induction es as [|[k| |key|st] es IH]; simpl; by rewrite ?IH.
Qed.

(** X2: the sound takes no part in the game.  Two pages whose games agree
    (whatever their audio context, decoded buffers and past audio calls)
    still agree after the same events, and the sound events among them
    (a buffer decoded, the context changing state) make no difference: the
    board, the player to move, the activity flag, the cells and the status
    line are those obtained from the clicks alone. *)
Theorem game_independent_of_sound es s1 s2 :
  game s1 = game s2 →
  game (run es s1) = game (run es s2)
  ∧ game (run es s1) = game (run (clicks_of es) s2).
Proof.
  intros H. split; [|by apply run_blind_to_sound].
  rewrite (run_blind_to_sound es s1 s2 H).
  symmetry. by apply run_blind_to_sound.
Qed.

Lemma game_independent_of_sound_witness :
  game (run [SoundDecoded place; CellClick 0; ContextState running;
             CellClick 4] (loaded (Some suspended)))
  = game (run [CellClick 0; CellClick 4] (loaded None)).
Proof.
  apply (game_independent_of_sound
    [SoundDecoded place; CellClick 0; ContextState running; CellClick 4]
    (loaded (Some suspended)) (loaded None)).
  reflexivity.
Defined.

(** ** The cells after a move *)

Lemma update_element_alter k h s :
  (k < length (gameBoard s))%nat →
  update_element k h s = (Return tt, with_gameBoard (alter h k (gameBoard s)) s).
Proof.
  intros Hk. destruct (lookup_lt_is_Some_2 _ _ Hk) as [e He].
  rewrite (update_element_Some _ _ _ _ He). do 2 f_equal.
  apply list_eq. intros j. rewrite list_lookup_alter.
  case_decide as Hj.
  - subst j. rewrite list_lookup_insert_eq by done. by rewrite He.
  - by rewrite list_lookup_insert_ne.
Qed.

Lemma highlight_loop_run (n : nat) (l : list nat) s :
  length (gameBoard s) = n → (∀ i, i ∈ l → (i < n)%nat) →
  forEach l (λ index,
    match seq 0 n !! index with
    | Some k => update_element k (classList_add "winning")
    | None => throw
    end) s
  = (Return tt,
     with_gameBoard
       (foldl (λ g i, alter (classList_add "winning") i g) (gameBoard s) l) s).
Proof.
  revert s. induction l as [|x l IH]; intros s Hn Hl.
  - simpl. by destruct s.
  - assert (x < n)%nat as Hx by (apply Hl; left).
    rewrite forEach_cons.
    erewrite bind_return; last first.
    { cbv beta. rewrite lookup_seq_lt by done. simpl.
      apply update_element_alter. lia. }
    rewrite IH.
    + reflexivity.
    + simpl. by rewrite length_alter.
    + intros i Hi. apply Hl. by right.
Qed.

Lemma highlightWinningCells_run w s :
  rendered (gameBoard s) → (∀ i, i ∈ indices w → (i < 9)%nat) →
  highlightWinningCells w s
  = (Return tt, with_gameBoard (highlight w (gameBoard s)) s).
Proof.
  intros Hr Hw. unfold highlightWinningCells.
  rewrite (bind_return _ _ _ _ _ (querySelectorAll_run "cell" s)).
  rewrite querySelectorAll_from_all by (intros j e Hj; by apply Hr in Hj as [_ ?]).
  destruct Hr as [Hlen Hg].
  rewrite (highlight_loop_run (length (gameBoard s))); [done|done|].
  intros i Hi. rewrite Hlen. by apply Hw.
Qed.

(** The state an accepted move on the rendered page ends in, field by
    field. *)
Lemma handleCellClick_accepted_state index cellElement s :
  ignored index s = false →
  rendered (gameBoard s) → (cellElement < 9)%nat →
  let mover := currentPlayer s in
  let board := set (boardState s) index (str mover) in
  let cells :=
    alter (classList_add (toLowerCase mover)) cellElement
      (alter (set_textContent (player_text mover)) cellElement (gameBoard s)) in
  let placed := audioLog (exec (playSound place) s) in
  handleCellClick index cellElement s
  = (Return tt,
     match checkWinner_from board WINNING_COMBINATIONS with
     | Some (winner, w) =>
         State board mover false (highlight w cells)
           ("Player " +:+ to_string winner +:+ " Wins!")
           (audioContext s) (audioBuffers s)
           (audioLog (exec (playSound win) (with_audioLog placed s)))
     | None =>
         if every_not_null board then
           State board mover false cells "It's a Draw!"
             (audioContext s) (audioBuffers s) placed
         else
           State board (other mover) true cells
             ("Player " +:+ player_text (other mover) +:+ "'s Turn")
             (audioContext s) (audioBuffers s) placed
     end).
Proof.
  intros G Hr Hk mover board cells placed. unfold handleCellClick.
  unfold ignored in G. rewrite !bind_gets, G, bind_gets, bind_modify.
  fold mover board.
  assert (length (gameBoard s) = 9%nat) as Hlen by apply Hr.
  set (s1 := with_boardState board s).
  rewrite (bind_return _ _ _ _ _
    (update_element_alter cellElement _ s1 ltac:(simpl; lia))).
  set (s2 := with_gameBoard _ s1).
  rewrite (bind_return _ _ _ _ _
    (update_element_alter cellElement _ s2
       ltac:(simpl; rewrite length_alter; lia))).
  set (s3 := with_gameBoard _ s2).
  assert (gameBoard s3 = cells) as Hcells by reflexivity.
  assert (rendered cells) as Hr3.
  { destruct Hr as [_ Hg]. split; [unfold cells; by rewrite !length_alter|].
    intros j e Hj. unfold cells in Hj.
    destruct (decide (cellElement = j)) as [<-|Hne].
    - rewrite !list_lookup_alter_eq in Hj.
      destruct (gameBoard s !! cellElement) as [e0|] eqn:He0; [|done].
      simpl in Hj. injection Hj as <-. destruct (Hg _ _ He0) as [Hl Hc].
      rewrite classList_add_listener. split; [done|].
      by apply classList_add_keeps.
    - rewrite !list_lookup_alter_ne in Hj by done. by apply Hg. }
  rewrite (bind_return _ _ _ _ _ (playSound_run place s3)).
  assert (audioLog (exec (playSound place) s3) = placed) as ->.
  { by apply playSound_local. }
  set (s4 := with_audioLog placed s3).
  rewrite (bind_return _ _ s4 (checkWinner_from board WINNING_COMBINATIONS) s4)
    by reflexivity.
  destruct (checkWinner_from board WINNING_COMBINATIONS) as [[winner w]|] eqn:Hw.
  - rewrite bind_modify. unfold updateStatus. rewrite bind_modify.
    set (s5 := with_gameStatus _ _).
    destruct (checkWinner_from_Some _ _ _ _ Hw) as (p & -> & Hfirst).
    rewrite (bind_return _ _ _ _ _ (highlightWinningCells_run w s5 Hr3
      (λ i, WINNING_COMBINATIONS_on_grid w i (first_won_elem _ _ _ _ Hfirst)))).
    rewrite playSound_run.
    rewrite (playSound_local win _ (with_audioLog placed s)) by reflexivity.
    reflexivity.
  - rewrite bind_gets. change (boardState s4) with board.
    destruct (every_not_null board).
    + rewrite bind_modify. reflexivity.
    + rewrite bind_modify, bind_gets.
      assert (isGameActive s = true) as Hact by (by destruct (isGameActive s)).
      unfold updateStatus, modify, with_gameStatus, with_currentPlayer.
      cbn [boardState currentPlayer isGameActive gameBoard gameStatus
           audioContext audioBuffers audioLog s4 s3 s2 s1 with_audioLog
           with_gameBoard with_boardState].
      by rewrite Hact.
Qed.

(** ** The page shows the game *)

Lemma classList_add_elem c c' e :
  c' ∈ classList (classList_add c e) ↔ c' ∈ classList e ∨ c' = c.
Proof.
  unfold classList_add. case_bool_decide as Hc; simpl.
  - split; [auto|]. intros [? | ->]; done.
  - rewrite elem_of_app, elem_of_cons, elem_of_nil. tauto.
Qed.

Lemma classList_add_textContent c e :
  textContent (classList_add c e) = textContent e.
Proof. unfold classList_add. by case_bool_decide. Qed.

Lemma highlight_loop_lookup (l : list nat) (g : list element) (j : nat) e' :
  foldl (λ g i, alter (classList_add "winning") i g) g l !! j = Some e' →
  ∃ e, g !! j = Some e
    ∧ textContent e' = textContent e
    ∧ ∀ c, c ∈ classList e' ↔ c ∈ classList e ∨ (c = "winning" ∧ j ∈ l).
Proof.
  revert g. induction l as [|x l IH]; intros g Hj; simpl in Hj.
  - exists e'. split; [done|]. split; [done|]. intros c.
    rewrite elem_of_nil. tauto.
  - destruct (IH _ Hj) as (e1 & He1 & Ht & Hc).
    destruct (decide (x = j)) as [->|Hne].
    + rewrite list_lookup_alter_eq in He1.
      destruct (g !! j) as [e|]; [|done]. injection He1 as <-.
      exists e. split; [done|].
      split; [by rewrite Ht, classList_add_textContent|].
      intros c. rewrite Hc, classList_add_elem, elem_of_cons. tauto.
    + rewrite list_lookup_alter_ne in He1 by done.
      exists e1. split; [done|]. split; [done|].
      intros c. rewrite Hc, elem_of_cons. split; [tauto|].
      intros [?|[? [?|?]]]; [tauto|congruence|tauto].
Qed.

Lemma toLowerCase_inj p q : toLowerCase p = toLowerCase q → p = q.
Proof. by destruct p, q. Qed.

(** A combination won only after a write was won through the cell written,
    by the mark written. *)
Lemma new_winner_is_mover board index p winner w :
  checkWinner_from board WINNING_COMBINATIONS = None →
  checkWinner_from (set board index (str p)) WINNING_COMBINATIONS
  = Some (winner, w) →
  winner = str p.
Proof.
  intros Hnone Hw.
  destruct (checkWinner_from_Some _ _ _ _ Hw) as (q & -> & Hfirst).
  pose proof (first_won_elem _ _ _ _ Hfirst) as Hin.
  destruct Hfirst as (_ & _ & Hwon & _).
  pose proof (proj1 (checkWinner_from_None _ _) Hnone w Hin) as Hnot.
  destruct w as [[a b] c]. destruct Hwon as (Ha & Hb & Hc).
  destruct (decide (Z.of_nat a = index)) as [<-|Hna].
  { by rewrite get_set_eq in Ha. }
  destruct (decide (Z.of_nat b = index)) as [<-|Hnb].
  { by rewrite get_set_eq in Hb. }
  destruct (decide (Z.of_nat c = index)) as [<-|Hnc].
  { by rewrite get_set_eq in Hc. }
  rewrite get_set_ne in Ha, Hb, Hc by done.
  exfalso. apply Hnot. by exists q.
Qed.

Lemma display_fresh c bufs l :
  display (State empty_board X true (new_cell <$> seq 0 9)
                 "Player X's Turn" c bufs l).
Proof.
  split; [|split; [reflexivity|done]].
  intros k e Hk. cbn [gameBoard boardState] in *.
  apply list_lookup_fmap_Some in Hk as (i & -> & Hi).
  apply lookup_seq in Hi as [-> Hlt]. simpl in Hlt.
  assert (get empty_board (Z.of_nat k) = null) as ->.
  { unfold get, empty_board. cbn [items].
    rewrite (proj2 (is_array_index_spec _)) by lia.
    by rewrite Nat2Z.id, lookup_replicate_2 by lia. }
  split; [done|]. split.
  - intros p. cbn. rewrite elem_of_cons, elem_of_nil.
    split; [|done]. intros [H|[]]. by destruct p.
  - unfold highlighted_cells. cbn. rewrite elem_of_cons, !elem_of_nil.
    split; [|done]. intros [H|[]]. discriminate.
Qed.

Lemma handleCellClick_display (k : nat) s :
  invariant s → display s → (k < 9)%nat →
  display (exec (handleCellClick (Z.of_nat k) k) s).
Proof.
  intros Hinv Hdis Hk. unfold exec.
  destruct (ignored (Z.of_nat k) s) eqn:G.
  { by rewrite handleCellClick_ignored. }
  destruct (ignored_false _ _ G) as [Hact Hfree].
  destruct Hinv as (Hnine & Hr & Hgame). rewrite Hact in Hgame.
  destruct Hgame as (Hnone & _ & _).
  destruct Hdis as (Hcells & _ & _).
  rewrite (handleCellClick_accepted_state _ _ _ G Hr Hk). cbv zeta. cbn [snd].
  set (mover := currentPlayer s).
  set (board := set (boardState s) (Z.of_nat k) (str mover)).
  set (cells := alter _ k (alter _ k (gameBoard s))).
  (* the cells before the highlight *)
  assert (∀ (j : nat) e1, cells !! j = Some e1 →
    ∃ e, gameBoard s !! j = Some e
      ∧ textContent e1 = cell_text (get board (Z.of_nat j))
      ∧ (∀ p, toLowerCase p ∈ classList e1 ↔ get board (Z.of_nat j) = str p)
      ∧ "winning" ∉ classList e1) as Hplain.
  { intros j e1 Hj. unfold cells in Hj.
    destruct (decide (k = j)) as [<-|Hne].
    - rewrite !list_lookup_alter_eq in Hj.
      destruct (gameBoard s !! k) as [e|] eqn:He; [|done].
      simpl in Hj. injection Hj as <-. exists e. split; [done|].
      destruct (Hcells _ _ He) as (_ & Hcl & Hwin).
      unfold board. rewrite get_set_eq.
      split; [by rewrite classList_add_textContent|]. split.
      + intros p. rewrite classList_add_elem. cbn [classList set_textContent].
        rewrite Hcl. split.
        * intros [Hp|Heq]; [by rewrite Hp in Hfree|].
          apply toLowerCase_inj in Heq. by subst p.
        * intros [= ->]. by right.
      + rewrite classList_add_elem. cbn [classList set_textContent].
        rewrite Hwin. unfold highlighted_cells. rewrite Hact, elem_of_nil.
        intros [[]|H]. by destruct mover.
    - rewrite !list_lookup_alter_ne in Hj by done.
      exists e1. split; [done|].
      destruct (Hcells _ _ Hj) as (Htx & Hcl & Hwin).
      unfold board. rewrite get_set_ne by lia.
      split; [done|]. split; [done|].
      rewrite Hwin. unfold highlighted_cells. rewrite Hact, elem_of_nil. tauto. }
  destruct (checkWinner_from board WINNING_COMBINATIONS) as [[winner w]|] eqn:Hw.
  - pose proof (new_winner_is_mover _ _ _ _ _ Hnone Hw) as ->.
    split; [|split].
    + intros j e' Hj. cbn [gameBoard boardState] in *.
      unfold highlight in Hj.
      destruct (highlight_loop_lookup _ _ _ _ Hj) as (e1 & He1 & Ht & Hc).
      destruct (Hplain _ _ He1) as (e & _ & Htx & Hcl & Hnw).
      split; [by rewrite Ht|]. split.
      * intros p. rewrite Hc, Hcl. split; [|auto].
        intros [?|[H _]]; [done|]. by destruct p.
      * rewrite Hc. unfold highlighted_cells. cbn [isGameActive boardState].
        rewrite Hw. split; [|auto]. intros [?|[_ ?]]; done.
    + unfold status_text. cbn [isGameActive boardState currentPlayer gameStatus].
      by rewrite Hw.
    + intros _ winner' w'. cbn [boardState currentPlayer]. rewrite Hw.
      by intros [= <- _].
  - destruct (every_not_null board) eqn:Hev.
    + split; [|split].
      * intros j e1 Hj. cbn [gameBoard boardState] in *.
        destruct (Hplain _ _ Hj) as (e & _ & Htx & Hcl & Hnw).
        split; [done|]. split; [done|].
        unfold highlighted_cells. cbn [isGameActive boardState].
        rewrite Hw, elem_of_nil. tauto.
      * unfold status_text. cbn [isGameActive boardState gameStatus].
        by rewrite Hw.
      * intros _ winner' w'. cbn [boardState]. by rewrite Hw.
    + split; [|split].
      * intros j e1 Hj. cbn [gameBoard boardState] in *.
        destruct (Hplain _ _ Hj) as (e & _ & Htx & Hcl & Hnw).
        split; [done|]. split; [done|].
        unfold highlighted_cells. cbn [isGameActive].
        rewrite elem_of_nil. tauto.
      * reflexivity.
      * done.
Qed.

Lemma dispatch_display e s :
  invariant s → display s → display (exec (dispatch e) s).
Proof.
  intros Hinv Hdis. destruct e as [k| |key|st]; unfold exec; simpl dispatch.
  - rewrite bind_gets. destruct (gameBoard s !! k) as [cell|] eqn:Hcell; [|done].
    destruct Hinv as (Hnine & Hr & Hgame).
    destruct (proj2 Hr _ _ Hcell) as [-> _].
    apply handleCellClick_display; [by split|done|].
    destruct Hr as [<- _]. by eapply lookup_lt_Some.
  - rewrite resetGame_run. cbn [snd].
    rewrite fill_null_nine by apply Hinv. apply display_fresh.
  - rewrite bind_gets. by destruct (audioContext s).
  - rewrite bind_gets. by destruct (audioContext s).
Qed.

Lemma run_display es ctx : display (run es (loaded ctx)).
Proof.
  induction es as [|e es IH] using rev_ind.
  - destruct ctx; apply display_fresh.
  - rewrite run_snoc. apply dispatch_display; [apply run_invariant|done].
Qed.

(** X3: what the page shows is what the board holds.  After any sequence
    of events on the loaded page, every cell element shows the mark of its
    board entry (nothing for an empty one) and carries the class [x] or [o]
    exactly when that entry is an X or an O. *)
Theorem cells_show_board es ctx (k : nat) e :
  let s := run es (loaded ctx) in
  gameBoard s !! k = Some e →
  textContent e = cell_text (get (boardState s) (Z.of_nat k))
  ∧ ∀ p, toLowerCase p ∈ classList e ↔ get (boardState s) (Z.of_nat k) = str p.
Proof.
  intros s Hk. destruct (run_display es ctx) as (Hcells & _).
  destruct (Hcells _ _ Hk) as (Ht & Hc & _). by split.
Qed.

Lemma cells_show_board_witness :
  cell_text (get (boardState (run [CellClick 4] (loaded None))) 4) = "X"
  ∧ textContent (Element "X" ["cell"; "x"] 4 4) = "X".
Proof.
  pose proof (cells_show_board [CellClick 4] None 4
    (Element "X" ["cell"; "x"] 4 4) eq_refl) as [Ht _].
  split; [reflexivity|exact Ht].
Defined.

(** X4: the highlight is on the winning cells and nowhere else.  After any
    sequence of events on the loaded page, a cell element carries the class
    [winning] exactly when the game has ended and the cell belongs to the
    combination that [checkWinner] reports; while the game is active, and
    after a draw, no cell is highlighted. *)
Theorem highlight_shows_winner es ctx (k : nat) e :
  let s := run es (loaded ctx) in
  gameBoard s !! k = Some e →
  ("winning" ∈ classList e ↔ k ∈ highlighted_cells s)
  ∧ (isGameActive s = true → "winning" ∉ classList e)
  ∧ (gameStatus s = "It's a Draw!" → "winning" ∉ classList e).
Proof.
  intros s Hk. destruct (run_display es ctx) as (Hcells & Hst & _).
  destruct (Hcells _ _ Hk) as (_ & _ & Hwin). fold s in Hwin, Hst.
  split; [exact Hwin|]. split.
  - intros Hact. rewrite Hwin. unfold highlighted_cells.
    rewrite Hact, elem_of_nil. tauto.
  - intros Hdraw. rewrite Hwin. unfold highlighted_cells.
    rewrite Hdraw in Hst. unfold status_text in Hst.
    destruct (isGameActive s); [rewrite elem_of_nil; tauto|].
    destruct (checkWinner_from _ _) as [[v w]|]; [|rewrite elem_of_nil; tauto].
    by destruct (currentPlayer s).
Qed.

Lemma highlight_shows_winner_witness :
  let s := run (CellClick <$> [0; 4; 1; 3; 2]%nat) (loaded None) in
  "winning" ∈ classList (Element "X" ["cell"; "x"; "winning"] 1 1)
  ↔ 1%nat ∈ highlighted_cells s.
Proof.
  assert (gameBoard (run (CellClick <$> [0; 4; 1; 3; 2]%nat) (loaded None))
            !! 1%nat = Some (Element "X" ["cell"; "x"; "winning"] 1 1)) as Hk
    by (vm_compute; reflexivity).
  apply (highlight_shows_winner (CellClick <$> [0; 4; 1; 3; 2]%nat) None 1
    (Element "X" ["cell"; "x"; "winning"] 1 1) Hk).
Defined.

(** X5: the status line is a function of the variables of the game.  After
    any sequence of events on the loaded page it reads "Player p's Turn"
    while the game is active, "Player p Wins!" when the game has ended with
    a combination won, and "It's a Draw!" otherwise, [p] being
    [currentPlayer]: the turn is not passed on by the move that ends the
    game, so the winner announced is the player still current. *)
Theorem status_line_shows_game es ctx :
  let s := run es (loaded ctx) in
  gameStatus s = status_text s
  ∧ ∀ winner w,
      isGameActive s = false →
      checkWinner_from (boardState s) WINNING_COMBINATIONS = Some (winner, w) →
      winner = str (currentPlayer s).
Proof.
  intros s. destruct (run_display es ctx) as (_ & Hst & Hwin).
  split; [exact Hst|]. intros winner w Hend. by apply Hwin.
Qed.

Lemma status_line_shows_game_witness :
  let s := run (CellClick <$> [0; 4; 1; 3; 2]%nat) (loaded None) in
  gameStatus s = status_text s ∧ str X = str (currentPlayer s).
Proof.
  cbv zeta.
  destruct (status_line_shows_game (CellClick <$> [0; 4; 1; 3; 2]%nat) None)
    as [Hst Hwin].
  split; [exact Hst|].
  apply (Hwin (str X) (0, 1, 2)%nat); vm_compute; reflexivity.
Defined.

(** ** When the game ends, and whose turn it is *)

Lemma first_won_checkWinner l board p w :
  first_won l board p w → checkWinner_from board l = Some (str p, w).
Proof.
  intros (n & Hn & Hwon & Hfirst). revert n Hn Hfirst.
  induction l as [|[[a b] c] l IH]; intros n Hn Hfirst; [done|].
  simpl. destruct (_ && _) eqn:Hline at 1.
  - destruct n as [|n].
    + injection Hn as <-. destruct Hwon as (-> & _). done.
    + exfalso. apply (Hfirst 0%nat (a, b, c)); [lia|done|].
      by apply line_test.
  - destruct n as [|n].
    + injection Hn as <-. exfalso.
      assert (won board (a, b, c)) as Hw by (by exists p).
      apply line_test in Hw. congruence.
    + apply (IH n); [done|]. intros m w' Hm Hw'.
      apply (Hfirst (S m)); [lia|done].
Qed.

Lemma not_full_empty_cell board :
  nine_cells board → ¬ full board →
  ∃ i : nat, (i < 9)%nat ∧ get board (Z.of_nat i) = null.
Proof.
  intros Hnine Hnot.
  assert (∀ n : nat, (n ≤ 9)%nat →
    (∃ i : nat, (i < n)%nat ∧ get board (Z.of_nat i) = null)
    ∨ ∀ i : nat, (i < n)%nat → truthy (get board (Z.of_nat i)) = true) as H.
  { induction n as [|n IH]; intros Hn; [right; lia|].
    destruct IH as [(i & Hi & Hnull)|Hall]; [lia|left; exists i; split; [lia|done]|].
    destruct (nine_cells_get board (Z.of_nat n) Hnine ltac:(lia)) as [_ Hu].
    destruct (get board (Z.of_nat n)) eqn:Hg; [|done|].
    - left. exists n. split; [lia|done].
    - right. intros i Hi. destruct (decide (i = n)) as [->|?].
      + by rewrite Hg.
      + apply Hall. lia. }
  destruct (H 9%nat ltac:(lia)) as [Hex|Hall]; [exact Hex|].
  exfalso. apply Hnot. intros i Hi.
  rewrite <- (Z2Nat.id i) by lia. apply Hall. lia.
Qed.

(** X6: the game has ended exactly when a combination of the list is won
    or the nine cells are filled.  This holds after any sequence of events
    on the loaded page; equivalently the game is active exactly when
    [checkWinner] finds no winner and some cell is empty. *)
Theorem game_over_iff es ctx :
  let s := run es (loaded ctx) in
  (isGameActive s = false
   ↔ (∃ w, w ∈ WINNING_COMBINATIONS ∧ won (boardState s) w)
     ∨ full (boardState s))
  ∧ (isGameActive s = true
     ↔ checkWinner_from (boardState s) WINNING_COMBINATIONS = None
       ∧ ¬ full (boardState s)).
Proof.
  intros s. destruct (run_invariant es ctx) as (_ & _ & Hgame). fold s in Hgame.
  destruct (isGameActive s).
  - destruct Hgame as (Hnone & Hnot & _). split.
    + split; [done|]. intros [(w & Hin & Hw)|Hfull]; [|done].
      exfalso. by apply (proj1 (checkWinner_from_None _ _) Hnone w).
    + by split.
  - destruct Hgame as (_ & [(_ & Hfull & _)|(p & w & Hfirst & _)]).
    + split; [split; auto|]. split; [done|]. by intros [_ ?].
    + split.
      * split; [|done]. intros _. left. exists w.
        split; [by eapply first_won_elem|].
        destruct Hfirst as (_ & _ & Hw & _). by exists p.
      * split; [done|]. intros [Hnone _].
        by rewrite (first_won_checkWinner _ _ _ _ Hfirst) in Hnone.
Qed.

(** X7: an active game can always go on.  After any sequence of events on
    the loaded page, if the game is active then some cell of the grid is
    empty, and a click on any empty cell is accepted: it puts the current
    player's mark in that cell. *)
Theorem active_game_has_move es ctx :
  let s := run es (loaded ctx) in
  isGameActive s = true →
  (∃ i : nat, (i < 9)%nat ∧ get (boardState s) (Z.of_nat i) = null)
  ∧ ∀ i : nat, (i < 9)%nat → get (boardState s) (Z.of_nat i) = null →
      get (boardState (exec (dispatch (CellClick i)) s)) (Z.of_nat i)
      = str (currentPlayer s).
Proof.
  intros s Hact. destruct (run_invariant es ctx) as (Hnine & Hr & Hgame).
  fold s in Hnine, Hr, Hgame. rewrite Hact in Hgame.
  destruct Hgame as (_ & Hnot & _).
  split; [by apply not_full_empty_cell|].
  intros i Hi Hnull. unfold exec. simpl dispatch. rewrite bind_gets.
  destruct (rendered_lookup _ _ Hr Hi) as [cell Hcell]. rewrite Hcell.
  destruct (proj2 Hr _ _ Hcell) as [-> _].
  assert (ignored (Z.of_nat i) s = false) as G.
  { unfold ignored. by rewrite Hact, Hnull. }
  pose proof (handleCellClick_boardState (Z.of_nat i) i s G) as Hb.
  unfold exec in Hb. rewrite Hb. apply get_set_eq.
Qed.

Lemma active_game_has_move_witness :
  let s := run [CellClick 0] (loaded None) in
  get (boardState (exec (dispatch (CellClick 4)) s)) 4 = str O.
Proof.
  cbv zeta.
  destruct (active_game_has_move [CellClick 0] None eq_refl) as [_ H].
  apply (H 4%nat); [lia|reflexivity].
Defined.

(** X8: the marks on the board tell whose turn it is.  After any sequence
    of events on the loaded page, while the game is active, X is to move
    exactly when the board holds as many X as O, and O is to move exactly
    when it holds one X more. *)
Theorem turn_follows_marks es ctx :
  let s := run es (loaded ctx) in
  isGameActive s = true →
  (currentPlayer s = X
   ↔ count_marks X (boardState s) = count_marks O (boardState s))
  ∧ (currentPlayer s = O
     ↔ count_marks X (boardState s) = S (count_marks O (boardState s))).
Proof.
  intros s Hact. destruct (run_invariant es ctx) as (_ & _ & Hgame).
  fold s in Hgame. rewrite Hact in Hgame. destruct Hgame as (_ & _ & Hc).
  destruct (currentPlayer s); split; split; try done; intros; lia.
Qed.

Lemma turn_follows_marks_witness :
  let s := run [CellClick 0] (loaded None) in
  currentPlayer s = O
  ↔ count_marks X (boardState s) = S (count_marks O (boardState s)).
Proof.
  apply (turn_follows_marks [CellClick 0] None eq_refl).
Defined.

(** ** Marks stay *)

Lemma handleCellClick_keeps_mark index cellElement s j p :
  get (boardState s) j = str p →
  get (boardState (exec (handleCellClick index cellElement) s)) j = str p.
Proof.
  intros Hj. destruct (ignored index s) eqn:G.
  - unfold exec. by rewrite handleCellClick_ignored.
  - rewrite handleCellClick_boardState by done.
    destruct (ignored_false _ _ G) as [_ Hfree].
    rewrite get_set_ne; [done|]. intros ->. by rewrite Hj in Hfree.
Qed.

(** X9: a mark, once on the board, stays until the game is reset.  In any
    state, a cell that holds a player's mark holds the same mark after any
    call of [handleCellClick] (any index, any cell element, however the
    call ends) and after any sequence of events without a click on the
    reset button. *)
Theorem marks_stay es s j p :
  ResetClick ∉ es →
  get (boardState s) j = str p →
  (∀ index cellElement,
     get (boardState (exec (handleCellClick index cellElement) s)) j = str p)
  ∧ get (boardState (run es s)) j = str p.
Proof.
  intros Hes Hj. split; [intros; by apply handleCellClick_keeps_mark|].
  revert s Hj. induction es as [|e es IH]; intros s Hj; [done|].
  rewrite run_cons. apply IH.
  { intros Hin. apply Hes. by right. }
  destruct e as [k| |key|st]; unfold exec; simpl dispatch.
  - rewrite bind_gets. destruct (gameBoard s !! k); [|done].
    by apply handleCellClick_keeps_mark.
  - exfalso. apply Hes. by left.
  - rewrite bind_gets. by destruct (audioContext s).
  - rewrite bind_gets. by destruct (audioContext s).
Qed.

Lemma marks_stay_witness :
  let s := run [CellClick 0] (loaded None) in
  get (boardState (run [CellClick 0; CellClick 4; CellClick 0] s)) 0 = str X.
Proof.
  cbv zeta.
  apply (marks_stay [CellClick 0; CellClick 4; CellClick 0]
           (run [CellClick 0] (loaded None)) 0 X).
  - rewrite !elem_of_cons, elem_of_nil. intros [?|[?|[?|[]]]]; discriminate.
  - reflexivity.
Defined.

(** ** A call without a cell element *)

(** X10: [handleCellClick] writes the board before it touches the cell
    element.  An accepted call whose element is missing throws at the
    first write on the element, with the mark already on the board and
    everything else as before: the turn has not passed, the status line is
    unchanged, the end of the game has not been checked and no sound was
    played. *)
Theorem handleCellClick_without_element index cellElement s :
  ignored index s = false →
  gameBoard s !! cellElement = None →
  handleCellClick index cellElement s
  = (Throw,
     with_boardState (set (boardState s) index (str (currentPlayer s))) s).
Proof.
  intros G Hk. unfold handleCellClick. unfold ignored in G.
  rewrite !bind_gets, G, bind_gets, bind_modify.
  apply bind_throw. unfold update_element. rewrite bind_gets.
  cbn [gameBoard with_boardState]. by rewrite Hk.
Qed.

Lemma handleCellClick_without_element_witness :
  let s := State empty_board X true [] "" None [] [] in
  handleCellClick 0 0 s = (Throw, with_boardState (set empty_board 0 (str X)) s).
Proof.
  apply (handleCellClick_without_element 0 0
           (State empty_board X true [] "" None [] [])); reflexivity.
Defined.

(** ** [checkWinner], completely *)

(** X11: [checkWinner] reads the board and changes nothing.  It returns a
    result exactly when some combination of [WINNING_COMBINATIONS] has its
    three cells filled with one player's mark; the result is then the first
    such combination in list order together with that player's mark, never
    [null] or [undefined] as a winner.  It returns [null] exactly when no
    listed combination is won. *)
Theorem checkWinner_first_won s :
  ∃ result,
    checkWinner s = (Return result, s)
    ∧ (∀ winner w,
         result = Some (winner, w)
         ↔ ∃ p, winner = str p
              ∧ first_won WINNING_COMBINATIONS (boardState s) p w)
    ∧ (result = None
       ↔ ∀ w, w ∈ WINNING_COMBINATIONS → ¬ won (boardState s) w).
Proof.
  exists (checkWinner_from (boardState s) WINNING_COMBINATIONS).
  split; [reflexivity|]. split.
  - intros winner w. split.
    + apply checkWinner_from_Some.
    + intros (p & -> & Hfirst). by apply first_won_checkWinner.
  - apply checkWinner_from_None.
Qed.

(** ** Reset *)

Lemma run_app es es' s : run (es ++ es') s = run es' (run es s).
Proof. unfold run. by rewrite foldl_app. Qed.

(** X12: a reset forgets the game played so far.  After any sequence of
    events on the loaded page, a click on the reset button puts the game
    and its display in the state of a freshly loaded page, and whatever
    follows goes as it would on a fresh page (with any audio context): the
    board, the player to move, the flag, the cells and the status line
    after further events are those the clicks among them give from the
    start. *)
Theorem reset_forgets_history es es' ctx ctx' :
  game (run (es ++ [ResetClick]) (loaded ctx)) = game (loaded ctx')
  ∧ game (run (es ++ ResetClick :: es') (loaded ctx))
    = game (run (clicks_of es') (loaded ctx')).
Proof.
  assert (game (run (es ++ [ResetClick]) (loaded ctx)) = game (loaded ctx'))
    as Hreset.
  { rewrite run_app. change (run [ResetClick] ?s) with (exec resetGame s).
    unfold exec. rewrite resetGame_run. cbn [snd]. unfold game.
    cbn [boardState currentPlayer isGameActive gameBoard gameStatus].
    rewrite fill_null_nine by apply run_invariant.
    by destruct ctx'. }
  split; [exact Hreset|].
  replace (es ++ ResetClick :: es')%list
    with ((es ++ [ResetClick]) ++ es')%list by (by rewrite <- app_assoc).
  rewrite run_app. by apply run_blind_to_sound.
Qed.

(** X13: [resetGame] clears the indexed entries of the board and nothing
    more.  The array keeps its length and its properties, so a mark that a
    call with an index off the array (a negative one, say) has stored
    survives the reset, and a later call at that index is ignored as
    aimed at a taken cell. *)
Theorem resetGame_keeps_stray_marks s i p :
  is_array_index i = false →
  get (boardState s) i = str p →
  let s' := exec resetGame s in
  length (items (boardState s')) = length (items (boardState s))
  ∧ get (boardState s') i = str p
  ∧ ∀ cellElement, handleCellClick i cellElement s' = (Return tt, s').
Proof.
  intros Hi Hp s'. unfold s', exec. rewrite resetGame_run. cbn [snd].
  assert (get (fill_null (boardState s)) i = str p) as Hget.
  { unfold get in *. by rewrite Hi in *. }
  split; [cbn; by rewrite length_replicate|]. split; [exact Hget|].
  intros cellElement. apply handleCellClick_ignored.
  unfold ignored. cbn [isGameActive boardState]. by rewrite Hget.
Qed.

Lemma resetGame_keeps_stray_marks_witness :
  let s := exec (handleCellClick (-1) 0) (loaded None) in
  get (boardState (exec resetGame s)) (-1) = str X.
Proof.
  cbv zeta.
  apply (resetGame_keeps_stray_marks
           (exec (handleCellClick (-1) 0) (loaded None)) (-1) X);
    vm_compute; reflexivity.
Defined.

(** ** A full board *)

Lemma count_marks_all_marks (l : list jsval) :
  (∀ v, v ∈ l → truthy v = true) →
  (length (filter (λ v, v = str X) l) + length (filter (λ v, v = str O) l)
   = length l)%nat.
Proof.
  induction l as [|v l IH]; intros Hl; [done|].
  rewrite !filter_cons.
  assert (truthy v = true) as Hv by (apply Hl; left).
  specialize (IH (λ v' Hv', Hl v' (list_elem_of_further _ _ _ Hv'))).
  destruct v as [| |[]]; try done.
  - rewrite decide_True, decide_False by done. simpl. lia.
  - rewrite decide_False, decide_True by done. simpl. lia.
Qed.

Lemma full_count board :
  nine_cells board → full board →
  (count_marks X board + count_marks O board = 9)%nat.
Proof.
  intros Hnine Hfull. pose proof Hnine as (Hlen & _ & Hp).
  unfold count_marks. rewrite Hp, map_to_list_empty. simpl.
  pose proof (count_marks_all_marks (items board)) as H.
  rewrite Hlen in H. rewrite !Nat.add_0_r. apply H.
  intros v Hv. apply list_elem_of_lookup in Hv as [j Hj].
  assert (j < 9)%nat as Hlt by (rewrite <- Hlen; by eapply lookup_lt_Some).
  specialize (Hfull (Z.of_nat j) ltac:(lia)).
  destruct (nine_cells_get board (Z.of_nat j) Hnine ltac:(lia)) as [Hget _].
  rewrite Nat2Z.id, Hj in Hget. by injection Hget as ->.
Qed.

(** X14: a full board holds five X and four O.  After any sequence of
    events on the loaded page, if the nine cells are filled (in particular
    whenever the status line announces a draw) then X has played five
    times and O four times. *)
Theorem full_board_five_four es ctx :
  let s := run es (loaded ctx) in
  (full (boardState s) →
     count_marks X (boardState s) = 5%nat
     ∧ count_marks O (boardState s) = 4%nat)
  ∧ (gameStatus s = "It's a Draw!" → full (boardState s)).
Proof.
  intros s. destruct (run_invariant es ctx) as (Hnine & _ & Hgame).
  destruct (run_display es ctx) as (_ & Hst & _).
  fold s in Hnine, Hgame, Hst. split.
  - intros Hfull. pose proof (full_count _ Hnine Hfull) as Hsum.
    destruct (isGameActive s).
    + by destruct Hgame as (_ & Hnot & _).
    + destruct Hgame as [Hbal _]. lia.
  - intros Hdraw. rewrite Hdraw in Hst. unfold status_text in Hst.
    destruct (isGameActive s); [by destruct (currentPlayer s)|].
    destruct Hgame as (_ & [(_ & Hfull & _)|(p & w & Hfirst & _)]); [done|].
    rewrite (first_won_checkWinner _ _ _ _ Hfirst) in Hst.
    by destruct (currentPlayer s).
Qed.

Lemma full_board_five_four_witness :
  let s := run (CellClick <$> [0; 1; 2; 4; 3; 5; 7; 6; 8]%nat) (loaded None) in
  count_marks X (boardState s) = 5%nat ∧ count_marks O (boardState s) = 4%nat.
Proof.
  cbv zeta.
  destruct (full_board_five_four
    (CellClick <$> [0; 1; 2; 4; 3; 5; 7; 6; 8]%nat) None) as [H Hdraw].
  apply H, Hdraw. vm_compute. reflexivity.
Defined.

(** ** What the page plays *)

#[global] Instance keeps_preorder P : PreOrder (keeps P).
Proof.
  split.
  - intros s H. exact H.
  - intros s1 s2 s3 H12 H23 H. apply H23, H12, H.
Qed.

Lemma playSound_keeps_decoded key :
  steps (keeps started_sounds_decoded) (playSound key).
Proof.
  intros s Hs. unfold exec, playSound. rewrite !bind_gets.
  destruct (audioContext s) as [st|]; [|exact Hs].
  case_bool_decide as Hb; [|exact Hs].
  assert (started_sounds_decoded
            (with_audioLog (audioLog s ++ [Start key]) s)) as Hstart.
  { intros key'. cbn [audioLog audioBuffers with_audioLog].
    rewrite elem_of_app, elem_of_cons, elem_of_nil.
    intros [?|[[= ->]|[]]]; [by apply Hs|done]. }
  destruct st; [|exact Hstart].
  unfold log. rewrite bind_modify. intros key'.
  cbn [audioLog audioBuffers with_audioLog modify snd].
  rewrite !elem_of_app, !elem_of_cons, !elem_of_nil.
  intros [[?|[?|[]]]|[[= ->]|[]]]; [by apply Hs|done|done].
Qed.

Lemma playSound_keeps_without_context l key :
  steps (keeps (without_context l)) (playSound key).
Proof.
  intros s [Hc Hl]. unfold exec, playSound. rewrite !bind_gets, Hc. by split.
Qed.

(** Frame goals for a property of the sound fields: only [playSound]
    matters. *)
Ltac frame_sound lemma :=
  unfold handleCellClick, resetGame, renderBoard, checkWinner,
    highlightWinningCells, querySelectorAll, update_element, updateStatus;
  frame;
  try match goal with
    | |- steps _ (playSound _) => apply lemma
    | |- keeps _ _ _ => let H := fresh in intros H; exact H
    end.

Lemma dispatch_keeps_decoded e : steps (keeps started_sounds_decoded) (dispatch e).
Proof.
  destruct e as [k| |key|st]; simpl dispatch.
  - frame_sound playSound_keeps_decoded.
  - frame_sound playSound_keeps_decoded.
  - frame. intros Hs key'. cbn [audioLog audioBuffers with_audioBuffers].
    intros Hin. right. by apply Hs.
  - frame. intros Hs. exact Hs.
Qed.

Lemma dispatch_keeps_without_context l e :
  steps (keeps (without_context l)) (dispatch e).
Proof.
  destruct e as [k| |key|st]; simpl dispatch.
  - frame_sound (playSound_keeps_without_context l).
  - frame_sound (playSound_keeps_without_context l).
  - intros s [Hc Hl]. unfold exec. rewrite bind_gets, Hc. by split.
  - intros s [Hc Hl]. unfold exec. rewrite bind_gets, Hc. by split.
Qed.

Lemma run_steps R `{!PreOrder R} es :
  (∀ e, steps R (dispatch e)) → ∀ s, R s (run es s).
Proof.
  intros Hstep. induction es as [|e es IH] using rev_ind; intros s.
  - reflexivity.
  - rewrite run_snoc. etrans; [apply IH|apply Hstep].
Qed.

(** X15: without an audio context the page is silent.  If the browser
    offers no [AudioContext], no audio call is ever made, whatever is
    clicked, and the context stays unset; the game is played as usual. *)
Theorem silent_without_context es s :
  audioContext s = None →
  audioContext (run es s) = None ∧ audioLog (run es s) = audioLog s.
Proof.
  intros Hc.
  apply (run_steps (keeps (without_context (audioLog s))) es
           (dispatch_keeps_without_context (audioLog s)) s).
  by split.
Qed.

Lemma silent_without_context_witness :
  audioLog (run (CellClick <$> [0; 4; 1; 3; 2]%nat) (loaded None)) = [].
Proof.
  apply (silent_without_context (CellClick <$> [0; 4; 1; 3; 2]%nat)
           (loaded None) eq_refl).
Defined.

(** X16: only decoded sounds are started.  After any sequence of events on
    the loaded page, every sound that [playSound] has started is one whose
    buffer had been decoded: a click that comes before a sound is loaded
    skips that sound. *)
Theorem only_decoded_sounds_start es ctx key :
  let s := run es (loaded ctx) in
  Start key ∈ audioLog s → key ∈ audioBuffers s.
Proof.
  intros s. revert key.
  apply (run_steps (keeps started_sounds_decoded) es
           dispatch_keeps_decoded (loaded ctx)).
  intros key Hin. destruct ctx; by apply elem_of_nil in Hin.
Qed.

Lemma only_decoded_sounds_start_witness :
  let s := run [SoundDecoded place; CellClick 0] (loaded (Some running)) in
  place ∈ audioBuffers s.
Proof.
  apply (only_decoded_sounds_start [SoundDecoded place; CellClick 0]
           (Some running) place).
  vm_compute. apply list_elem_of_here.
Defined.

(** X17: the sounds of a move.  On the rendered page with a running audio
    context and both buffers decoded, an accepted move starts the placement
    sound and, when the move wins, the victory sound after it; it makes no
    other audio call. *)
Theorem move_sounds index cellElement s :
  ignored index s = false →
  rendered (gameBoard s) → (cellElement < 9)%nat →
  audioContext s = Some running →
  place ∈ audioBuffers s → win ∈ audioBuffers s →
  let board := set (boardState s) index (str (currentPlayer s)) in
  audioLog (exec (handleCellClick index cellElement) s)
  = (audioLog s
     ++ Start place
        :: match checkWinner_from board WINNING_COMBINATIONS with
           | Some _ => [Start win]
           | None => []
           end)%list.
Proof.
  intros G Hr Hk Hc Hp Hw board. unfold exec.
  rewrite (handleCellClick_accepted_state _ _ _ G Hr Hk). cbv zeta. cbn [snd].
  fold board. rewrite (playSound_log_running place s Hc Hp).
  destruct (checkWinner_from board WINNING_COMBINATIONS) as [[winner w]|].
  - cbn [audioLog]. rewrite playSound_log_running by done.
    cbn [audioLog with_audioLog]. by rewrite <- app_assoc.
  - by destruct (every_not_null board).
Qed.

Lemma move_sounds_witness :
  let s := run [SoundDecoded place; SoundDecoded win; CellClick 0; CellClick 4;
                CellClick 1; CellClick 3] (loaded (Some running)) in
  audioLog (exec (handleCellClick 2 2) s)
  = (audioLog s
     ++ Start place
        :: match checkWinner_from (set (boardState s) 2 (str (currentPlayer s)))
                   WINNING_COMBINATIONS with
           | Some _ => [Start win]
           | None => []
           end)%list.
Proof.
  cbv zeta.
  pose proof (run_invariant [SoundDecoded place; SoundDecoded win; CellClick 0;
    CellClick 4; CellClick 1; CellClick 3] (Some running)) as (_ & Hr & _).
  apply (move_sounds 2 2
    (run [SoundDecoded place; SoundDecoded win; CellClick 0; CellClick 4;
          CellClick 1; CellClick 3] (loaded (Some running))));
    [vm_compute; reflexivity | exact Hr | lia | vm_compute; reflexivity
    | vm_compute; apply list_elem_of_further, list_elem_of_here
    | vm_compute; apply list_elem_of_here].
Defined.

(** ** [highlightWinningCells] off the rendered page *)

Lemma querySelectorAll_from_bound k c g k' :
  k' ∈ querySelectorAll_from k c g → (k ≤ k' < k + length g)%nat.
Proof.
  revert k. induction g as [|e g IH]; intros k; simpl.
  - intros H. by apply elem_of_nil in H.
  - case_bool_decide.
    + rewrite elem_of_cons. intros [->|H']; [lia|].
      apply IH in H'. lia.
    + intros H'. apply IH in H'. lia.
Qed.

Lemma highlight_loop_returns (cells l : list nat) (n : nat) s :
  length (gameBoard s) = n → (∀ k, k ∈ cells → (k < n)%nat) →
  (forEach l (λ index,
     match cells !! index with
     | Some k => update_element k (classList_add "winning")
     | None => throw
     end) s).1 = Return tt
  ↔ ∀ i, i ∈ l → (i < length cells)%nat.
Proof.
  intros Hn Hcells. revert s Hn. induction l as [|x l IH]; intros s Hn.
  - split; [|done]. intros _ i Hi. by apply elem_of_nil in Hi.
  - rewrite forEach_cons. destruct (cells !! x) as [k|] eqn:Hx.
    + assert (k < length (gameBoard s))%nat as Hk.
      { rewrite Hn. apply Hcells. by eapply list_elem_of_lookup_2. }
      erewrite bind_return; last first.
      { cbv beta. rewrite ?Hx. by apply update_element_alter. }
      rewrite IH by (cbn [gameBoard with_gameBoard]; by rewrite length_alter).
      split.
      * intros H i. rewrite elem_of_cons. intros [->|Hi]; [|by apply H].
        by eapply lookup_lt_Some.
      * intros H i Hi. apply H. by right.
    + erewrite bind_throw; last first.
      { cbv beta. rewrite ?Hx. reflexivity. }
      split; [done|]. intros H. exfalso.
      apply lookup_ge_None in Hx. specialize (H x ltac:(left)). lia.
Qed.

Lemma update_element_length k h :
  steps (same (λ s, length (gameBoard s))) (update_element k h).
Proof.
  intros s. unfold same, exec, update_element. rewrite bind_gets.
  destruct (gameBoard s !! k); [|done].
  cbn [snd modify gameBoard with_gameBoard]. by rewrite length_insert.
Qed.

(** X18: [highlightWinningCells] relies on the cells being there.  It
    returns normally exactly when every index of the combination is below
    the number of elements of class [cell] under [#gameBoard]; otherwise
    it throws at the first index that has no cell.  Either way the board,
    the player, the flag and the status line are untouched and no cell
    element is added or removed. *)
Theorem highlightWinningCells_needs_cells w s :
  let cells := querySelectorAll_from 0 "cell" (gameBoard s) in
  let s' := exec (highlightWinningCells w) s in
  ((highlightWinningCells w s).1 = Return tt
   ↔ ∀ i, i ∈ indices w → (i < length cells)%nat)
  ∧ boardState s' = boardState s ∧ currentPlayer s' = currentPlayer s
  ∧ isGameActive s' = isGameActive s ∧ gameStatus s' = gameStatus s
  ∧ length (gameBoard s') = length (gameBoard s).
Proof.
  intros cells s'. split.
  - unfold highlightWinningCells.
    rewrite (bind_return _ _ _ _ _ (querySelectorAll_run "cell" s)).
    apply (highlight_loop_returns _ _ (length (gameBoard s))); [done|].
    intros k Hk. apply querySelectorAll_from_bound in Hk. lia.
  - split_and!.
    + by apply (highlightWinningCells_same boardState).
    + by apply (highlightWinningCells_same currentPlayer).
    + by apply (highlightWinningCells_same isGameActive).
    + by apply (highlightWinningCells_same gameStatus).
    + assert (steps (same (λ s, length (gameBoard s)))
                (highlightWinningCells w)) as H; [|apply H].
      unfold highlightWinningCells, querySelectorAll.
      frame. apply update_element_length.
Qed.

(** ** The length of a game *)

Lemma count_marks_le (l : list jsval) :
  (length (filter (λ v, v = str X) l) + length (filter (λ v, v = str O) l)
   ≤ length l)%nat.
Proof.
  induction l as [|v l IH]; [done|]. rewrite !filter_cons.
  destruct (decide (v = str X)) as [->|?].
  - rewrite decide_False by done. simpl. lia.
  - destruct (decide (v = str O)); simpl; lia.
Qed.

(** X19: every accepted move adds one mark, and there is room for nine.
    After any sequence of events on the loaded page, a click on a cell
    that is accepted adds exactly one mark of the current player and none
    of the other; the board never holds more than nine marks, so a game
    takes at most nine accepted moves. *)
Theorem move_adds_one_mark es ctx (i : nat) :
  let s := run es (loaded ctx) in
  (i < 9)%nat → ignored (Z.of_nat i) s = false →
  let s' := exec (dispatch (CellClick i)) s in
  count_marks (currentPlayer s) (boardState s')
  = S (count_marks (currentPlayer s) (boardState s))
  ∧ count_marks (other (currentPlayer s)) (boardState s')
    = count_marks (other (currentPlayer s)) (boardState s)
  ∧ (count_marks X (boardState s') + count_marks O (boardState s') ≤ 9)%nat.
Proof.
  intros s Hi G s'.
  destruct (run_invariant es ctx) as (Hnine & Hr & _). fold s in Hnine, Hr.
  destruct (ignored_false _ _ G) as [_ Hfree].
  destruct (rendered_lookup _ _ Hr Hi) as [cell Hcell].
  destruct (proj2 Hr _ _ Hcell) as [Hl _].
  assert (boardState s'
          = set (boardState s) (Z.of_nat i) (str (currentPlayer s))) as Hb.
  { unfold s', exec. simpl dispatch. rewrite bind_gets, Hcell, Hl.
    by apply handleCellClick_boardState. }
  rewrite Hb. split_and!.
  - rewrite count_marks_set by (done || lia).
    rewrite decide_True by done. lia.
  - rewrite count_marks_set by (done || lia).
    rewrite decide_False by (by destruct (currentPlayer s)). lia.
  - assert (nine_cells (set (boardState s) (Z.of_nat i) (str (currentPlayer s))))
      as (Hlen' & _ & Hp') by (apply nine_cells_set; [done|lia]).
    unfold count_marks. rewrite Hp', map_to_list_empty. simpl.
    rewrite !Nat.add_0_r, <- Hlen'. apply count_marks_le.
Qed.

Lemma move_adds_one_mark_witness :
  let s := run [CellClick 0] (loaded None) in
  count_marks (currentPlayer s) (boardState (exec (dispatch (CellClick 4)) s))
  = S (count_marks (currentPlayer s) (boardState s)).
Proof.
  cbv zeta.
  pose proof (move_adds_one_mark [CellClick 0] None 4) as H.
  cbv zeta in H. destruct H as [H _]; [lia|vm_compute; reflexivity|].
  exact H.
Defined.
